(** * The text-input suggestion widget of obsidian-auto-folder (src/main.ts)

    A shallow embedding of [wrapAround], the list controller [Suggest], the
    binding layer [TextInputSuggest] and the shipped source [FolderSuggest],
    followed by the properties the specification states about them.

    Conventions of the embedding.
    - A JavaScript number is [num]: an exact integer or [NaN].  Every number
      the widget computes is an array index, an array length or the sum or
      remainder of two of them, all far inside the range where doubles are
      exact, so [+], [-] and [%] are the integer operations, with [%] the
      truncated remainder [Z.rem] and [x % 0 = NaN].
    - A field that the constructor leaves unassigned is an [option] that
      starts as [None] (JavaScript's [undefined]).
    - DOM elements and positioning-engine instances live in stores indexed by
      a reference ([nat]); object fields hold references, so aliasing between
      the container's children and [Suggest.suggestions] is kept.
    - A method is a computation [M A]: it takes the world, returns an
      outcome (a value or a thrown error), the world it leaves behind, and
      the ordered list of calls it made to its collaborators. *)

From Stdlib Require Import ZArith Lia Bool Ascii String List.
From stdpp Require Import base list.
Import ListNotations.
Local Open Scope Z_scope.

(** ** JavaScript numbers *)

Inductive num : Type :=
| NaN : num
| Int : Z -> num.

(** [a + b] *)
Definition js_add (a b : num) : num :=
  match a, b with
  | Int x, Int y => Int (x + y)
  | _, _ => NaN
  end.

(** [a - b] *)
Definition js_sub (a b : num) : num :=
  match a, b with
  | Int x, Int y => Int (x - y)
  | _, _ => NaN
  end.

(** [a % b]: the sign follows the dividend; a zero divisor gives [NaN]. *)
Definition js_rem (a b : num) : num :=
  match a, b with
  | Int x, Int y => if Z.eqb y 0 then NaN else Int (Z.rem x y)
  | _, _ => NaN
  end.

(** [ToNumber] of a possibly unassigned numeric field. *)
Definition to_number (o : option num) : num :=
  match o with
  | Some n => n
  | None => NaN
  end.

(** main.ts 167-169:
    [const wrapAround = (value, size) => ((value % size) + size) % size] *)
Definition wrapAround (value size : num) : num :=
  js_rem (js_add (js_rem value size) size) size.

(** ** Strings *)

Local Open Scope string_scope.

(** ASCII lower-casing, the part of [String.prototype.toLowerCase] that the
    folder paths of the examples exercise; other bytes are left as they are. *)
Definition lower_ascii (c : ascii) : ascii :=
  let n := nat_of_ascii c in
  if (Nat.leb 65 n && Nat.leb n 90)%bool then ascii_of_nat (n + 32) else c.

Fixpoint toLowerCase (s : string) : string :=
  match s with
  | EmptyString => EmptyString
  | String c s' => String (lower_ascii c) (toLowerCase s')
  end.

(** [s.contains(t)]: [t] occurs in [s] as a contiguous substring. *)
Fixpoint contains (s t : string) : bool :=
  if String.prefix t s then true
  else match s with
       | EmptyString => false
       | String _ s' => contains s' t
       end.

(** ** The world the widget runs in *)

Definition ElId := nat.
Definition PopperId := nat.

(** An [HTMLDivElement]: its class list and its text. *)
Record Element : Type := mkElement {
  classes : list string;
  text : string
}.

Definition hasClass (c : string) (e : Element) : bool :=
  existsb (String.eqb c) (classes e).

(** [el.addClass(c)]: the class list is a set, adding twice changes nothing. *)
Definition addClass (c : string) (e : Element) : Element :=
  if hasClass c e then e else mkElement (classes e ++ [c]) (text e).

(** [el.removeClass(c)] *)
Definition removeClass (c : string) (e : Element) : Element :=
  mkElement (List.filter (fun d => negb (String.eqb c d)) (classes e)) (text e).

(** [el.setText(s)] *)
Definition setText (s : string) (e : Element) : Element :=
  mkElement (classes e) s.

(** [createDiv(cls)] *)
Definition newDiv (cls : string) : Element := mkElement [cls] "".

(** The scopes on the host's keymap stack: the one this widget created in
    its constructor ([this.scope = new Scope()]) and those of other owners. *)
Inductive Scope : Type :=
| ThisScope : Scope
| HostScope : nat -> Scope.

Definition scope_eqb (a b : Scope) : bool :=
  match a, b with
  | ThisScope, ThisScope => true
  | HostScope i, HostScope j => Nat.eqb i j
  | _, _ => false
  end.

(** Modelled from the spec: the host keymap ([app.keymap], part of the
    Obsidian application, not of this repository).  Section 6 describes it
    as a stack with push and pop of a scope object; the head of the list is
    the active scope.  [pushScope] puts the scope on top. *)
Definition pushScope (s : Scope) (k : list Scope) : list Scope := s :: k.

(** Modelled from the spec: [popScope] of the host keymap.  An active scope
    is taken off the top, which activates the entry below it; a scope that is
    not active is taken out of the stack wherever it occurs. *)
Definition popScope (s : Scope) (k : list Scope) : list Scope :=
  match k with
  | t :: k' => if scope_eqb t s then k'
               else List.filter (fun u => negb (scope_eqb u s)) k
  | [] => []
  end.

Definition count_scope (s : Scope) (k : list Scope) : nat :=
  List.length (List.filter (scope_eqb s) k).

Inductive Key : Type := ArrowUp | ArrowDown | Enter | Escape.

(** The [MouseEvent | KeyboardEvent] handed to the handlers. *)
Inductive DomEvent : Type :=
| MouseEvent : ElId -> DomEvent
| KeyboardEvent : Key -> bool -> DomEvent.

Definition isComposing (ev : DomEvent) : bool :=
  match ev with
  | KeyboardEvent _ c => c
  | MouseEvent _ => false
  end.

Inductive JsError : Type :=
| TypeError : string -> JsError.

Inductive PanelState : Type := Closed | Open.

Section Widget.

(** The candidate type [T], JavaScript's truthiness of a [T] (objects are
    always truthy; an empty string or the number zero is not), and the two
    capabilities of the owner that the list controller and the binding
    layer call: [getSuggestions], whose result may be absent, and
    [renderSuggestion], which writes into the element it is handed. *)
Context {T : Type}.
Variable truthy : T -> bool.
Variable getSuggestions : string -> option (list T).
Variable renderSuggestion : T -> Element -> Element.

Record World : Type := mkWorld {
  keymap : list Scope;            (* app.keymap, active scope first *)
  dom : list Element;             (* element store, indexed by ElId *)
  poppers : list bool;            (* positioning instances; true = live *)
  input_value : string;           (* this.inputEl.value *)
  panel_attached : bool;          (* this.suggestEl has a parent *)
  popper : option PopperId;       (* this.popper *)
  container_children : list ElId; (* children of Suggest.containerEl *)
  values : option (list T);       (* Suggest.values *)
  suggestions : option (list ElId); (* Suggest.suggestions *)
  selectedItem : option num       (* Suggest.selectedItem *)
}.

(** The calls a method makes to its collaborators, in order. *)
Inductive Call : Type :=
| KeymapPush : Call                       (* app.keymap.pushScope(this.scope) *)
| KeymapPop : Call                        (* app.keymap.popScope(this.scope) *)
| WrapAroundCall : num -> num -> Call     (* wrapAround(value, size) *)
| OwnerRender : T -> ElId -> Call         (* owner.renderSuggestion(value, el) *)
| OwnerSelect : T -> DomEvent -> Call     (* owner.selectSuggestion(value, event) *)
| ScrollIntoView : ElId -> Call           (* el.scrollIntoView(false) *)
| AppendPanel : Call                      (* container.appendChild(this.suggestEl) *)
| DetachPanel : Call                      (* this.suggestEl.detach() *)
| CreatePopper : PopperId -> Call         (* createPopper(inputEl, suggestEl, ...) *)
| DestroyPopper : PopperId -> Call        (* this.popper.destroy() *)
| SetInputValue : string -> Call          (* this.inputEl.value = ... *)
| TriggerInput : Call                     (* this.inputEl.trigger("input") *)
| PreventDefault : Call.                  (* event.preventDefault() *)

Inductive Outcome (A : Type) : Type :=
| Returned : A -> Outcome A
| Threw : JsError -> Outcome A.
Arguments Returned {A} _.
Arguments Threw {A} _.

Record Run (A : Type) : Type := mkRun {
  outcome : Outcome A;
  final : World;
  calls : list Call
}.
Arguments mkRun {A} _ _ _.
Arguments outcome {A} _.
Arguments final {A} _.
Arguments calls {A} _.

Definition M (A : Type) : Type := World -> Run A.

Definition ret {A} (a : A) : M A := fun w => mkRun (Returned a) w [].

(** Sequencing: a thrown error ends the method, and the mutations and calls
    made before it stay. *)
Definition bind {A B} (m : M A) (f : A -> M B) : M B :=
  fun w =>
    match m w with
    | mkRun (Returned a) w1 c1 =>
        match f a w1 with
        | mkRun o w2 c2 => mkRun o w2 (c1 ++ c2)
        end
    | mkRun (Threw e) w1 c1 => mkRun (Threw e) w1 c1
    end.

Definition throw {A} (e : JsError) : M A := fun w => mkRun (Threw e) w [].
Definition emit (c : Call) : M unit := fun w => mkRun (Returned tt) w [c].
Definition gets {A} (f : World -> A) : M A := fun w => mkRun (Returned (f w)) w [].
Definition modify (f : World -> World) : M unit :=
  fun w => mkRun (Returned tt) (f w) [].

Notation "x <- m ;; k" := (bind m (fun x => k))
  (at level 100, m at next level, right associativity).
Notation "m ;; k" := (bind m (fun _ => k))
  (at level 100, right associativity).

(** Field updates. *)
Definition set_keymap (k : list Scope) (w : World) : World :=
  mkWorld k (dom w) (poppers w) (input_value w) (panel_attached w) (popper w)
          (container_children w) (values w) (suggestions w) (selectedItem w).
Definition set_dom (d : list Element) (w : World) : World :=
  mkWorld (keymap w) d (poppers w) (input_value w) (panel_attached w) (popper w)
          (container_children w) (values w) (suggestions w) (selectedItem w).
Definition set_poppers (p : list bool) (w : World) : World :=
  mkWorld (keymap w) (dom w) p (input_value w) (panel_attached w) (popper w)
          (container_children w) (values w) (suggestions w) (selectedItem w).
Definition set_input_value (s : string) (w : World) : World :=
  mkWorld (keymap w) (dom w) (poppers w) s (panel_attached w) (popper w)
          (container_children w) (values w) (suggestions w) (selectedItem w).
Definition set_panel_attached (b : bool) (w : World) : World :=
  mkWorld (keymap w) (dom w) (poppers w) (input_value w) b (popper w)
          (container_children w) (values w) (suggestions w) (selectedItem w).
Definition set_popper (p : option PopperId) (w : World) : World :=
  mkWorld (keymap w) (dom w) (poppers w) (input_value w) (panel_attached w) p
          (container_children w) (values w) (suggestions w) (selectedItem w).
Definition set_container_children (c : list ElId) (w : World) : World :=
  mkWorld (keymap w) (dom w) (poppers w) (input_value w) (panel_attached w)
          (popper w) c (values w) (suggestions w) (selectedItem w).
Definition set_values (v : option (list T)) (w : World) : World :=
  mkWorld (keymap w) (dom w) (poppers w) (input_value w) (panel_attached w)
          (popper w) (container_children w) v (suggestions w) (selectedItem w).
Definition set_suggestions (s : option (list ElId)) (w : World) : World :=
  mkWorld (keymap w) (dom w) (poppers w) (input_value w) (panel_attached w)
          (popper w) (container_children w) (values w) s (selectedItem w).
Definition set_selectedItem (n : option num) (w : World) : World :=
  mkWorld (keymap w) (dom w) (poppers w) (input_value w) (panel_attached w)
          (popper w) (container_children w) (values w) (suggestions w) n.

(** [arr[i]] for an index that may be unassigned, [NaN], negative or past
    the end: all of those read [undefined]. *)
Definition js_index {A} (l : list A) (i : option num) : option A :=
  match i with
  | Some (Int z) => if Z.ltb z 0 then None else l !! Z.to_nat z
  | _ => None
  end.

(** [arr.indexOf(x)]: the first position of [x], or [-1]. *)
Fixpoint indexOf (l : list ElId) (x : ElId) : Z :=
  match l with
  | [] => -1
  | y :: l' => if Nat.eqb y x then 0
               else let r := indexOf l' x in
                    if Z.ltb r 0 then -1 else r + 1
  end.

(** Apply a DOM method to the element behind a reference. *)
Definition update_el (f : Element -> Element) (el : ElId) : M unit :=
  modify (fun w => set_dom (alter f el (dom w)) w).

(** [ref?.method()] *)
Definition optional (f : ElId -> M unit) (o : option ElId) : M unit :=
  match o with
  | Some el => f el
  | None => ret tt
  end.

(** The store after a DOM method ran on the element behind an optional
    reference. *)
Definition onElement (f : Element -> Element) (o : option ElId)
  (d : list Element) : list Element :=
  match o with
  | Some el => alter f el d
  | None => d
  end.

(** What the owner's render capability makes of a fresh item element. *)
Definition rendered (v : T) : Element :=
  renderSuggestion v (newDiv "suggestion-item").

(** *** class Suggest *)

(** main.ts 254-270, [Suggest.setSelectedItem].  Reading [.length] of an
    unassigned [suggestions] and calling [scrollIntoView] on an absent
    element are the two places that can throw. *)
Definition setSelectedItem (selectedIndex : num) (scrollIntoView : bool)
  : M unit :=
  sugg <- gets suggestions ;;
  match sugg with
  | None => throw (TypeError "suggestions is undefined")
  | Some els =>
      let size := Int (Z.of_nat (List.length els)) in
      emit (WrapAroundCall selectedIndex size) ;;
      let normalizedIndex := wrapAround selectedIndex size in
      cur <- gets selectedItem ;;
      let prevSelectedSuggestion := js_index els cur in
      let selectedSuggestion := js_index els (Some normalizedIndex) in
      optional (update_el (removeClass "is-selected")) prevSelectedSuggestion ;;
      optional (update_el (addClass "is-selected")) selectedSuggestion ;;
      modify (set_selectedItem (Some normalizedIndex)) ;;
      if scrollIntoView then
        match selectedSuggestion with
        | Some el => emit (ScrollIntoView el)
        | None => throw (TypeError "selectedSuggestion is undefined")
        end
      else ret tt
  end.

(** [this.containerEl.createDiv(cls)]: a new element, appended to the
    container. *)
Definition createDiv (cls : string) : M ElId :=
  fun w =>
    let el := List.length (dom w) in
    mkRun (Returned el)
          (set_container_children (container_children w ++ [el])
             (set_dom (dom w ++ [newDiv cls]) w))
          [].

(** The body of [values.forEach] in [setSuggestions], main.ts 236-240. *)
Fixpoint renderEach (vals : list T) (suggestionEls : list ElId)
  : M (list ElId) :=
  match vals with
  | [] => ret suggestionEls
  | value :: rest =>
      suggestionEl <- createDiv "suggestion-item" ;;
      emit (OwnerRender value suggestionEl) ;;
      update_el (renderSuggestion value) suggestionEl ;;
      renderEach rest (suggestionEls ++ [suggestionEl])
  end.

(** main.ts 232-245, [Suggest.setSuggestions] *)
Definition setSuggestions (vals : list T) : M unit :=
  modify (set_container_children []) ;;
  suggestionEls <- renderEach vals [] ;;
  modify (set_values (Some vals)) ;;
  modify (set_suggestions (Some suggestionEls)) ;;
  setSelectedItem (Int 0) false.

(** *** class TextInputSuggest, without the select capability *)

(** main.ts 321-350, [TextInputSuggest.open].  The [sameWidth] modifier only
    affects the geometry the positioning engine computes, which is not part
    of the world. *)
Definition open : M unit :=
  emit KeymapPush ;;
  modify (fun w => set_keymap (pushScope ThisScope (keymap w)) w) ;;
  emit AppendPanel ;;
  modify (set_panel_attached true) ;;
  p <- gets (fun w => List.length (poppers w)) ;;
  emit (CreatePopper p) ;;
  modify (fun w => set_popper (Some p) (set_poppers (poppers w ++ [true]) w)).

(** main.ts 352-359, [TextInputSuggest.close] *)
Definition close : M unit :=
  emit KeymapPop ;;
  modify (fun w => set_keymap (popScope ThisScope (keymap w)) w) ;;
  setSuggestions [] ;;
  pp <- gets popper ;;
  match pp with
  | Some p =>
      emit (DestroyPopper p) ;;
      modify (fun w => set_poppers (<[p := false]> (poppers w)) w)
  | None => ret tt
  end ;;
  emit DetachPanel ;;
  modify (set_panel_attached false).

(** main.ts 303-319, [TextInputSuggest.onInputChanged] *)
Definition onInputChanged : M unit :=
  inputStr <- gets input_value ;;
  match getSuggestions inputStr with
  | None => close
  | Some sugg =>
      if Z.ltb 0 (Z.of_nat (List.length sugg)) then
        setSuggestions sugg ;;
        open
      else close
  end.

(** *** The handlers that reach the select capability *)

Variable selectSuggestion : T -> DomEvent -> M unit.

(** main.ts 247-252, [Suggest.useSelectedItem] *)
Definition useSelectedItem (event : DomEvent) : M unit :=
  vals <- gets values ;;
  match vals with
  | None => throw (TypeError "values is undefined")
  | Some vs =>
      cur <- gets selectedItem ;;
      match js_index vs cur with
      | Some currentValue =>
          if truthy currentValue then
            emit (OwnerSelect currentValue event) ;;
            selectSuggestion currentValue event
          else ret tt
      | None => ret tt
      end
  end.

(** main.ts 197-216: the key handlers registered on the widget's scope.  A
    handler returns [false] (suppress the default action) or nothing. *)
Definition onArrowUp (event : DomEvent) : M (option bool) :=
  if negb (isComposing event) then
    cur <- gets selectedItem ;;
    setSelectedItem (js_sub (to_number cur) (Int 1)) true ;;
    ret (Some false)
  else ret None.

Definition onArrowDown (event : DomEvent) : M (option bool) :=
  if negb (isComposing event) then
    cur <- gets selectedItem ;;
    setSelectedItem (js_add (to_number cur) (Int 1)) true ;;
    ret (Some false)
  else ret None.

Definition onEnter (event : DomEvent) : M (option bool) :=
  if negb (isComposing event) then
    useSelectedItem event ;;
    ret (Some false)
  else ret None.

(** main.ts 289: [scope.register([], "Escape", this.close.bind(this))] *)
Definition onEscape (_ : DomEvent) : M (option bool) :=
  close ;; ret None.

(** main.ts 219-225, [Suggest.onSuggestionClick] *)
Definition onSuggestionClick (event : DomEvent) (el : ElId) : M unit :=
  emit PreventDefault ;;
  sugg <- gets suggestions ;;
  match sugg with
  | None => throw (TypeError "suggestions is undefined")
  | Some els =>
      let item := indexOf els el in
      setSelectedItem (Int item) false ;;
      useSelectedItem event
  end.

(** main.ts 227-230, [Suggest.onSuggestionMouseover] *)
Definition onSuggestionMouseover (_ : DomEvent) (el : ElId) : M unit :=
  sugg <- gets suggestions ;;
  match sugg with
  | None => throw (TypeError "suggestions is undefined")
  | Some els =>
      let item := indexOf els el in
      setSelectedItem (Int item) false
  end.

(** *** Event delivery by the host

    What the user does to the bound input and the panel.  The constructor
    (main.ts 186-195, 289-293) registers [onInputChanged] for [input] and
    [focus], [close] for [blur], the key handlers on the widget's scope and
    the mouse handlers on the [.suggestion-item] children of the container. *)
Inductive UiEvent : Type :=
| UserInput : string -> UiEvent      (* the field's text becomes the string *)
| UserFocus : UiEvent
| UserBlur : UiEvent
| UserKey : Key -> bool -> UiEvent   (* key, isComposing *)
| UserClick : ElId -> UiEvent
| UserMouseMove : ElId -> UiEvent.

Definition keyHandler (k : Key) : DomEvent -> M (option bool) :=
  match k with
  | ArrowUp => onArrowUp
  | ArrowDown => onArrowDown
  | Enter => onEnter
  | Escape => onEscape
  end.

(** Modelled from the spec: the host hands a key to the active scope only
    (section 6: the scope is consulted before global key handling), and a
    mouse event to the handler of a suggestion item only when that item is
    a child of the container of an attached panel. *)
Definition deliver (ev : UiEvent) : M unit :=
  match ev with
  | UserInput s => modify (set_input_value s) ;; onInputChanged
  | UserFocus => onInputChanged
  | UserBlur => close
  | UserKey k composing =>
      active <- gets (fun w => head (keymap w)) ;;
      match active with
      | Some ThisScope => keyHandler k (KeyboardEvent k composing) ;; ret tt
      | _ => ret tt
      end
  | UserClick el =>
      shown <- gets (fun w => panel_attached w
                              && existsb (Nat.eqb el) (container_children w)) ;;
      if shown : bool then onSuggestionClick (MouseEvent el) el else ret tt
  | UserMouseMove el =>
      shown <- gets (fun w => panel_attached w
                              && existsb (Nat.eqb el) (container_children w)) ;;
      if shown : bool then onSuggestionMouseover (MouseEvent el) el else ret tt
  end.

(** Events are handled one after the other, each to completion; an error
    thrown by a handler is reported by the host and the next event is
    delivered to the world the handler left. *)
Fixpoint deliverAll (evs : list UiEvent) (w : World) : World :=
  match evs with
  | [] => w
  | ev :: rest => deliverAll rest (final (deliver ev w))
  end.

(** All calls made while the events are handled. *)
Fixpoint callsOf (evs : list UiEvent) (w : World) : list Call :=
  match evs with
  | [] => []
  | ev :: rest => calls (deliver ev w) ++ callsOf rest (final (deliver ev w))
  end.


(** The rendered elements that carry the selection mark. *)
Definition selectedEls (w : World) : list ElId :=
  List.filter
    (fun el => match dom w !! el with
               | Some e => hasClass "is-selected" e
               | None => false
               end)
    (container_children w).

(** The state of section 3: the panel is open while it is attached. *)
Definition panelState (w : World) : PanelState :=
  if panel_attached w then Open else Closed.

(** The world right after the constructor: nothing rendered, no positioning
    instance, the [Suggest] fields unassigned, and the host's own root scope
    the only entry of the keymap. *)
Definition initial : World :=
  mkWorld [HostScope 0] [] [] "" false None [] None None None.

End Widget.

Arguments World : clear implicits.
Arguments Call : clear implicits.
Arguments Returned {A} _.
Arguments Threw {A} _.
Arguments mkRun {T A} _ _ _.
Arguments outcome {T A} _.
Arguments final {T A} _.
Arguments calls {T A} _.
Arguments M : clear implicits.
Arguments initial : clear implicits.

Notation "x <- m ;; k" := (bind m (fun x => k))
  (at level 100, m at next level, right associativity).
Notation "m ;; k" := (bind m (fun _ => k))
  (at level 100, right associativity).

Definition is_push {T} (c : Call T) : bool :=
  match c with KeymapPush => true | _ => false end.
Definition is_pop {T} (c : Call T) : bool :=
  match c with KeymapPop => true | _ => false end.
Definition is_select {T} (c : Call T) : bool :=
  match c with OwnerSelect _ _ => true | _ => false end.
Definition is_scroll {T} (c : Call T) : bool :=
  match c with ScrollIntoView _ => true | _ => false end.

(** The sizes with which [wrapAround] was called, in order. *)
Definition wrapSizes {T} (cs : list (Call T)) : list num :=
  flat_map (fun c => match c with WrapAroundCall _ n => [n] | _ => [] end) cs.

Definition count_calls {T} (p : Call T -> bool) (cs : list (Call T)) : nat :=
  List.length (List.filter p cs).

(** ** class FolderSuggest *)

Record TFolder : Type := mkTFolder { path : string }.

(** What [app.vault.getAllLoadedFiles()] returns: files and folders. *)
Inductive TAbstractFile : Type :=
| AFile : string -> TAbstractFile
| AFolder : TFolder -> TAbstractFile.

Module FolderSuggest.

(** A [TFolder] is an object, hence truthy. *)
Definition truthy (_ : TFolder) : bool := true.

(** The body of [abstractFiles.forEach], main.ts 373-380. *)
Definition collect (lowerCaseInputStr : string) (folders : list TFolder)
  (folder : TAbstractFile) : list TFolder :=
  match folder with
  | AFolder f =>
      if contains (toLowerCase (path f)) lowerCaseInputStr
      then folders ++ [f]
      else folders
  | AFile _ => folders
  end.

(** main.ts 367-383, [FolderSuggest.getSuggestions] *)
Definition getSuggestions (abstractFiles : list TAbstractFile)
  (inputStr : string) : list TFolder :=
  let lowerCaseInputStr := toLowerCase inputStr in
  let folders := fold_left (collect lowerCaseInputStr) abstractFiles [] in
  firstn 1000 folders.

(** The method as the binding layer sees it: the result is never absent. *)
Definition source (abstractFiles : list TAbstractFile) (inputStr : string)
  : option (list TFolder) :=
  Some (getSuggestions abstractFiles inputStr).

(** main.ts 385-387, [FolderSuggest.renderSuggestion] *)
Definition renderSuggestion (file : TFolder) (el : Element) : Element :=
  setText (path file) el.

(** main.ts 389-393, [FolderSuggest.selectSuggestion].  [trigger("input")]
    dispatches the event synchronously, so the widget's own [input]
    listener runs before [close]. *)
Definition selectSuggestion (abstractFiles : list TAbstractFile)
  (file : TFolder) (_ : DomEvent) : M TFolder unit :=
  emit (SetInputValue (path file)) ;;
  modify (set_input_value (path file)) ;;
  emit TriggerInput ;;
  onInputChanged (source abstractFiles) renderSuggestion ;;
  close renderSuggestion.

(** The widget bound to a vault. *)
Definition handle (abstractFiles : list TAbstractFile)
  : UiEvent -> M TFolder unit :=
  deliver truthy (source abstractFiles) renderSuggestion
          (selectSuggestion abstractFiles).

Definition handleAll (abstractFiles : list TAbstractFile)
  : list UiEvent -> World TFolder -> World TFolder :=
  deliverAll truthy (source abstractFiles) renderSuggestion
             (selectSuggestion abstractFiles).

Definition callsOfAll (abstractFiles : list TAbstractFile)
  : list UiEvent -> World TFolder -> list (Call TFolder) :=
  callsOf truthy (source abstractFiles) renderSuggestion
          (selectSuggestion abstractFiles).

End FolderSuggest.

(** The known folders of end-to-end scenario 1, among some notes. *)
Definition scenarioVault : list TAbstractFile :=
  [ AFolder (mkTFolder "Projects/Work");
    AFile "Projects/Work/plan.md";
    AFolder (mkTFolder "Projects/Personal");
    AFolder (mkTFolder "Journal");
    AFile "Journal/monday.md" ].

(** The known folders of a vault, in the order the vault lists them. *)
Definition foldersOf (abstractFiles : list TAbstractFile) : list TFolder :=
  flat_map (fun a => match a with AFolder f => [f] | AFile _ => [] end)
           abstractFiles.

(** The folder's path contains the input, both lower-cased. *)
Definition matchesInput (inputStr : string) (f : TFolder) : bool :=
  contains (toLowerCase (path f)) (toLowerCase inputStr).

(** Scenario 1: the user types "pro" into the field of a new widget. *)
Definition scenarioOpen : World TFolder :=
  FolderSuggest.handleAll scenarioVault [UserInput "pro"] (initial TFolder).

(** The user types "p" and then "r": two input events with candidates. *)
Definition scenarioTypedTwice : World TFolder :=
  FolderSuggest.handleAll scenarioVault [UserInput "p"; UserInput "pr"]
                          (initial TFolder).

(** A second owner, over strings: [TextInputSuggest<string>] whose source
    offers the empty string among its candidates, renders a candidate as its
    own text and writes the selected one into the field. *)
Module TextSuggest.

(** A string is truthy unless it is empty. *)
Definition truthy (s : string) : bool := negb (String.eqb s "").

Definition source (_ : string) : option (list string) :=
  Some [""; "inbox"].

Definition renderSuggestion (item : string) (el : Element) : Element :=
  setText item el.

Definition selectSuggestion (item : string) (_ : DomEvent) : M string unit :=
  emit (SetInputValue item) ;;
  modify (set_input_value item).

(** The panel after a focus event: two candidates, the first selected. *)
Definition focused : World string :=
  final (onInputChanged source renderSuggestion (initial string)).

End TextSuggest.

(** ** The organise command (main.ts 14-68) *)

Record PluginSettings : Type := mkPluginSettings {
  notesFolder : string;
  ribbonButtonEnabled : bool
}.

Record TFile : Type := mkTFile { name : string }.

(** [frontmatter.tags], declared [string[] | undefined] and also compared
    with [null]. *)
Inductive TagsValue : Type :=
| TagsUndefined : TagsValue
| TagsNull : TagsValue
| TagsArray : list string -> TagsValue.

Record FrontMatter : Type := mkFrontMatter { tags : TagsValue }.

(** An entry of [folder.children]. *)
Inductive VaultChild : Type :=
| ChildFile : TFile -> VaultChild
| ChildFolder : TFolder -> VaultChild.

(** What the command asks of the host: a notice shown to the user, and the
    two requests that change the vault. *)
Inductive VaultCall : Type :=
| ShowNotice : string -> VaultCall            (* new Notice(msg) *)
| CreateFolder : string -> VaultCall          (* app.vault.createFolder(path) *)
| Rename : TFile -> string -> VaultCall.      (* app.vault.rename(file, newPath) *)

(** The rest of an async function that stopped at
    [await app.vault.createFolder(path)]: what it does when the promise
    resolves with a folder, and what its [catch] does when it rejects. *)
Record Pending : Type := mkPending {
  awaited : string;
  onResolved : TFolder -> list VaultCall;
  onRejected : list VaultCall
}.

(** A call of an async function: the requests made before it returns to its
    caller, and what is left to run later, if it stopped at an [await]. *)
Record Started : Type := mkStarted {
  syncCalls : list VaultCall;
  pending : option Pending
}.

Section Organise.

(** The host, as the command reads it.  [frontmatterOf file] is
    [app.metadataCache.getFileCache(file)?.frontmatter].  [getFolderByPath]
    is [app.vault.getFolderByPath]; its answer may depend on the requests
    the command has made so far, which are its first argument.
    [childrenOf folder] is the listing [folder.children] that [forEach]
    walks. *)
Variable frontmatterOf : TFile -> option FrontMatter.
Variable getFolderByPath : list VaultCall -> string -> option TFolder.
Variable childrenOf : TFolder -> list VaultChild.

(** main.ts 24-53, [transferNote], called after the requests [hist]. *)
Definition transferNote (hist : list VaultCall) (baseFolder : TFolder)
  (file : TFile) : Started :=
  match frontmatterOf file with
  | None =>
      mkStarted [ShowNotice ("Frontmatter not found for " ++ name file)] None
  | Some frontmatter =>
      match tags frontmatter with
      | TagsUndefined | TagsNull | TagsArray [] =>
          mkStarted [ShowNotice ("Tag not found for " ++ name file)] None
      | TagsArray (category :: _) =>
          let target := (path baseFolder ++ "/" ++ category)%string in
          match getFolderByPath hist target with
          | Some folder =>
              mkStarted [Rename file (path folder ++ "/" ++ name file)] None
          | None =>
              mkStarted
                [CreateFolder target]
                (Some (mkPending
                         target
                         (fun folder =>
                            [Rename file (path folder ++ "/" ++ name file)])
                         [ShowNotice
                            ("Folder creation failed for " ++ category)]))
          end
      end
  end.

(** The body of [folder.children.forEach], main.ts 62-66: the requests made
    so far and the calls of [transferNote] still waiting.  The promise
    [transferNote] returns is dropped, so the loop goes on at once. *)
Definition organiseChild (folder : TFolder)
  (acc : list VaultCall * list Pending) (child : VaultChild)
  : list VaultCall * list Pending :=
  match child with
  | ChildFile file =>
      let started := transferNote (fst acc) folder file in
      ((fst acc ++ syncCalls started)%list,
       (snd acc ++ match pending started with
                   | Some p => [p]
                   | None => []
                   end)%list)
  | ChildFolder _ => acc
  end.

(** main.ts 55-68, [organiseFiles]: the requests made before the command
    returns, and the calls of [transferNote] that finish later. *)
Definition organiseFiles (settings : PluginSettings)
  : list VaultCall * list Pending :=
  match getFolderByPath [] (notesFolder settings) with
  | None => ([ShowNotice "Notes folder not found."], [])
  | Some folder =>
      let done := fold_left (organiseChild folder) (childrenOf folder) ([], []) in
      ((fst done ++ [ShowNotice "Notes organised!"])%list, snd done)
  end.

End Organise.



Definition is_create (c : VaultCall) : bool :=
  match c with CreateFolder _ => true | _ => false end.

(** The files among the entries of a folder. *)
Definition filesOf (children : list VaultChild) : list TFile :=
  flat_map (fun c => match c with ChildFile f => [f] | ChildFolder _ => [] end)
           children.

(** ** Invariants of the list controller *)

(** The selection mark follows the selected index: the container shows the
    elements [els], all distinct and all in the store, the selected index
    reads the element [el] of [els], and [el] is the only one of them that
    carries the mark. *)
Definition MarkedAt {T} (w : World T) (els : list ElId) (el : ElId) : Prop :=
  suggestions w = Some els /\
  container_children w = els /\
  NoDup els /\
  (forall e : ElId, In e els -> (e < List.length (dom w))%nat) /\
  js_index els (selectedItem w) = Some el /\
  selectedEls w = [el].

(** The shape of the controller's fields: unassigned together, or one
    rendered element per value, the container showing exactly those
    elements, and the selected index [NaN] on an empty list and inside
    [[0, len)] otherwise. *)
Definition Normalized {T} (w : World T) : Prop :=
  match values w, suggestions w with
  | None, None => container_children w = [] /\ selectedItem w = None
  | Some vs, Some els =>
      List.length vs = List.length els /\
      container_children w = els /\
      match els with
      | [] => selectedItem w = Some NaN
      | _ :: _ =>
          exists i : Z,
            selectedItem w = Some (Int i) /\
            (0 <= i < Z.of_nat (List.length els))%Z
      end
  | _, _ => False
  end.

(** What an attached panel implies: at least one value to show, and a live
    positioning instance behind [this.popper]. *)
Definition OpenShape {T} (w : World T) : Prop :=
  panel_attached w = true ->
  (exists (v : T) (vs : list T), values w = Some (v :: vs)) /\
  (exists p : PopperId, popper w = Some p /\ poppers w !! p = Some true).

Definition Shaped {T} (w : World T) : Prop := Normalized w /\ OpenShape w.

(** * Properties *)

Local Open Scope Z_scope.
Local Open Scope list_scope.

(** ** Index wrapping *)

Lemma rem_shift_nonneg (v n : Z) : 0 < n -> 0 < Z.rem v n + n < 2 * n.
Proof.
  intros Hn.
  pose proof (Z.rem_bound_abs v n ltac:(lia)). lia.
Qed.

Lemma rem_congr_mod (v n : Z) : 0 < n -> (Z.rem v n + n) mod n = v mod n.
Proof.
  intros Hn.
  assert (Hne : n <> 0) by lia.
  pose proof (Z.quot_rem' v n) as Hq.
  replace (Z.rem v n + n) with (v + (1 - Z.quot v n) * n) by lia.
  apply Z_mod_plus_full.
Qed.

Lemma wrapAround_mod (v n : Z) :
  0 < n -> wrapAround (Int v) (Int n) = Int (v mod n).
Proof.
  intros Hn. unfold wrapAround. cbn [js_rem js_add].
  destruct (Z.eqb_spec n 0) as [-> | Hne]; [lia |].
  cbn [js_rem js_add].
  destruct (Z.eqb_spec n 0) as [Heq | _]; [contradiction |].
  f_equal.
  pose proof (rem_shift_nonneg v n Hn) as Hb.
  rewrite (Z.rem_mod_nonneg (Z.rem v n + n) n) by lia.
  now apply rem_congr_mod.
Qed.

Lemma wrapAround_zero_size (v : num) : wrapAround v (Int 0) = NaN.
Proof. destruct v; reflexivity. Qed.

(** C3.  For every integer [v] and every [n > 0], [wrapAround v n] is
    [((v mod n) + n) mod n], lies in [[0, n)], and is unchanged when any
    multiple [k * n] is added to [v], whatever the sign of [v]. *)
Theorem wrapAround_range_periodic (v n : Z) :
  0 < n ->
  exists r : Z,
    wrapAround (Int v) (Int n) = Int r /\
    r = ((v mod n) + n) mod n /\
    0 <= r < n /\
    forall k : Z, wrapAround (Int (v + k * n)) (Int n) = Int r.
Proof.
  intros Hn. exists (v mod n).
  assert (Hne : n <> 0) by lia.
  repeat split.
  - now apply wrapAround_mod.
  - replace (v mod n + n) with (v mod n + 1 * n) by lia.
    rewrite Z_mod_plus_full. now rewrite Z.mod_mod.
  - apply Z.mod_pos_bound; lia.
  - apply Z.mod_pos_bound; lia.
  - intros k. rewrite wrapAround_mod by assumption.
    now rewrite Z_mod_plus_full.
Qed.

Lemma wrapAround_range_periodic_witness :
  exists r : Z,
    wrapAround (Int (-7)) (Int 3) = Int r /\
    r = (((-7) mod 3) + 3) mod 3 /\
    0 <= r < 3 /\
    forall k : Z, wrapAround (Int (-7 + k * 3)) (Int 3) = Int r.
Proof. apply (wrapAround_range_periodic (-7) 3). lia. Defined.

(** ** The list controller *)

Arguments wrapAround : simpl never.
Arguments js_index : simpl never.
Arguments setSelectedItem : simpl never.
Arguments setSuggestions : simpl never.
Arguments open : simpl never.
Arguments close : simpl never.
Arguments onInputChanged : simpl never.
Arguments useSelectedItem : simpl never.

Section SuggestProps.

Context {T : Type}.
Variable renderSuggestion : T -> Element -> Element.

Lemma js_index_in_range {A} (l : list A) (r : Z) :
  0 <= r < Z.of_nat (List.length l) ->
  exists x, js_index l (Some (Int r)) = Some x.
Proof.
  intros [Hlo Hhi]. unfold js_index.
  destruct (Z.ltb_spec r 0) as [Hneg | _]; [lia |].
  destruct (lookup_lt_is_Some_2 l (Z.to_nat r)) as [x Hx]; [lia |].
  exists x. exact Hx.
Qed.

Lemma setSelectedItem_nonempty (w : World T) (els : list ElId) (idx : Z)
  (scroll : bool) :
  suggestions w = Some els ->
  0 < Z.of_nat (List.length els) ->
  let r := setSelectedItem (Int idx) scroll w in
  outcome r = Returned tt /\
  selectedItem (final r) = Some (Int (idx mod Z.of_nat (List.length els))) /\
  suggestions (final r) = Some els /\
  values (final r) = values w.
Proof.
  intros Hs Hlen. destruct w as [km d pp iv pa po cc vs sg si].
  simpl in Hs. subst sg.
  unfold setSelectedItem, bind, gets, emit, modify, ret, throw. cbn.
  rewrite wrapAround_mod by assumption.
  set (n := idx mod Z.of_nat (List.length els)).
  assert (Hn : 0 <= n < Z.of_nat (List.length els))
    by (apply Z.mod_pos_bound; lia).
  destruct (js_index_in_range els n Hn) as [el Hel]. rewrite Hel.
  destruct (js_index els si) as [prev |]; destruct scroll; cbn; auto.
Qed.

Lemma onArrowDown_step (w : World T) (els : list ElId) (i : Z) :
  suggestions w = Some els ->
  0 < Z.of_nat (List.length els) ->
  selectedItem w = Some (Int i) ->
  let r := onArrowDown (KeyboardEvent ArrowDown false) w in
  outcome r = Returned (Some false) /\
  selectedItem (final r) = Some (Int ((i + 1) mod Z.of_nat (List.length els))) /\
  suggestions (final r) = Some els.
Proof.
  intros Hs Hlen Hi.
  pose proof (setSelectedItem_nonempty w els (i + 1) true Hs Hlen) as H.
  cbv zeta in H. destruct H as (Ho & Hsel & Hsug & _).
  unfold onArrowDown, bind, gets, ret. cbn.
  rewrite Hi. cbn [to_number js_add].
  destruct (setSelectedItem (Int (i + 1)) true w) as [o w' c].
  cbn in *. subst o. cbn. auto.
Qed.



Lemma renderEach_run (vals : list T) :
  forall (acc : list ElId) (w : World T),
    let n := List.length (dom w) in
    let fresh := seq n (List.length vals) in
    renderEach renderSuggestion vals acc w
    = mkRun (Returned (acc ++ fresh))
            (set_container_children (container_children w ++ fresh)
               (set_dom (dom w ++ map (rendered renderSuggestion) vals) w))
            (zip_with OwnerRender vals fresh).
Proof.
  induction vals as [| v rest IH]; intros acc w;
    destruct w as [km d pp iv pa po cc vs sg si].
  - cbn. unfold ret, set_container_children, set_dom. cbn.
    now rewrite !app_nil_r.
  - cbn [renderEach].
    unfold bind, createDiv, emit, update_el, modify, set_dom. cbn.
    rewrite (alter_app_r_alt _ d _ (List.length d)) by lia.
    rewrite Nat.sub_diag. cbn [alter list_alter].
    rewrite IH. cbn.
    unfold set_container_children, set_dom. cbn.
    rewrite length_app. cbn [List.length].
    rewrite Nat.add_1_r.
    rewrite <- !app_assoc. cbn.
    reflexivity.
Qed.

Lemma js_index_nil {A} (i : option num) : js_index (@nil A) i = None.
Proof.
  unfold js_index. destruct i as [[| z] |]; try reflexivity.
  now destruct (Z.ltb z 0).
Qed.

(** [setSelectedItem] in closed form, once [suggestions] is assigned. *)
Lemma setSelectedItem_run (w : World T) (els : list ElId) (idx : num)
  (scroll : bool) :
  suggestions w = Some els ->
  let size := Int (Z.of_nat (List.length els)) in
  let norm := wrapAround idx size in
  let sel := js_index els (Some norm) in
  setSelectedItem idx scroll w
  = mkRun (if scroll then
             match sel with
             | Some _ => Returned tt
             | None => Threw (TypeError "selectedSuggestion is undefined")
             end
           else Returned tt)
          (set_selectedItem (Some norm)
             (set_dom
                (onElement (addClass "is-selected") sel
                   (onElement (removeClass "is-selected")
                      (js_index els (selectedItem w)) (dom w)))
                w))
          (WrapAroundCall idx size
             :: (if scroll then
                   match sel with
                   | Some el => [ScrollIntoView el]
                   | None => []
                   end
                 else [])).
Proof.
  intros Hs. destruct w as [km d pp iv pa po cc vs sg si].
  cbn in Hs. subst sg.
  unfold setSelectedItem, bind, gets, emit, modify, ret, throw,
    optional, update_el, onElement.
  cbn.
  destruct (js_index els si) as [prev |];
    destruct (js_index els
                (Some (wrapAround idx (Int (Z.of_nat (List.length els))))))
      as [el |];
    destruct scroll; reflexivity.
Qed.

Lemma setSuggestions_run (vals : list T) (w : World T) :
  let n := List.length (dom w) in
  let fresh := seq n (List.length vals) in
  let size := Int (Z.of_nat (List.length vals)) in
  let norm := wrapAround (Int 0) size in
  setSuggestions renderSuggestion vals w
  = mkRun (Returned tt)
          (mkWorld (keymap w)
                   (onElement (addClass "is-selected")
                      (js_index fresh (Some norm))
                      (onElement (removeClass "is-selected")
                         (js_index fresh (selectedItem w))
                         (dom w ++ map (rendered renderSuggestion) vals)))
                   (poppers w) (input_value w) (panel_attached w) (popper w)
                   fresh (Some vals) (Some fresh) (Some norm))
          (zip_with OwnerRender vals fresh
             ++ [WrapAroundCall (Int 0) size]).
Proof.
  destruct w as [km d pp iv pa po cc vs sg si]. cbn.
  unfold setSuggestions, bind, modify. cbn.
  rewrite renderEach_run. cbn.
  rewrite (setSelectedItem_run _ (seq (List.length d) (List.length vals)))
    by reflexivity.
  cbn. rewrite length_seq. reflexivity.
Qed.

Lemma removeClass_absent (c : string) (e : Element) :
  hasClass c e = false -> removeClass c e = e.
Proof.
  destruct e as [cl tx]. unfold hasClass, removeClass. cbn.
  intros H. f_equal.
  induction cl as [| d cl IH]; [reflexivity |].
  cbn in *. apply orb_false_iff in H as [Hd Hcl].
  rewrite Hd. cbn. f_equal. now apply IH.
Qed.

Lemma hasClass_addClass (c : string) (e : Element) :
  hasClass c (addClass c e) = true.
Proof.
  unfold addClass. destruct (hasClass c e) eqn:H; [exact H |].
  unfold hasClass. cbn. rewrite existsb_app. cbn.
  rewrite String.eqb_refl. now rewrite orb_true_r.
Qed.

Lemma alter_fixed_points {A} (f : A -> A) (l : list A) (i : nat) :
  (forall x, l !! i = Some x -> f x = x) -> alter f i l = l.
Proof.
  revert i. induction l as [| a l IH]; intros [| i] H; cbn; try reflexivity.
  - f_equal. now apply H.
  - f_equal. apply IH. intros x Hx. now apply H.
Qed.

Lemma js_index_seq (n len : nat) (i : option num) (el : ElId) :
  js_index (seq n len) i = Some el -> (n <= el < n + len)%nat.
Proof.
  unfold js_index. destruct i as [[| z] |]; try discriminate.
  destruct (Z.ltb z 0); [discriminate |].
  intros H. apply lookup_seq in H. lia.
Qed.

Lemma lookup_map {A B} (f : A -> B) (l : list A) (i : nat) :
  map f l !! i = option_map f (l !! i).
Proof.
  revert i. induction l as [| a l IH]; intros [| i]; cbn; auto.
Qed.

Lemma map_lookup_all_false {A B} (f : A -> B) (p : B -> bool) (l : list A)
  (i : nat) :
  (forall x, p (f x) = false) ->
  match map f l !! i with
  | Some e => p e
  | None => false
  end = false.
Proof.
  intros H. rewrite lookup_map. now destruct (l !! i); cbn.
Qed.

Lemma filter_none {A} (p : A -> bool) (l : list A) :
  (forall x, In x l -> p x = false) -> List.filter p l = [].
Proof.
  induction l as [| a l IH]; intros H; [reflexivity |].
  cbn. rewrite (H a) by now left.
  apply IH. intros x Hx. apply H. now right.
Qed.

(** C4.  For a non-empty list of items, and an owner whose render
    capability does not itself mark an element as selected,
    [setSuggestions] returns normally; the container holds only elements
    that did not exist before, one per item and in the order of the items,
    each created as a [suggestion-item] and handed once to the owner's
    render capability; the selected index is 0; no element was scrolled
    into view; and exactly one rendered element carries the selection mark,
    the first. *)
Theorem setSuggestions_renders_and_selects_first (w : World T) (v : T)
  (rest : list T) :
  (forall x : T,
      hasClass "is-selected" (rendered renderSuggestion x) = false) ->
  let vals := v :: rest in
  let n := List.length (dom w) in
  let fresh := seq n (List.length vals) in
  let r := setSuggestions renderSuggestion vals w in
  outcome r = Returned tt /\
  final r
  = mkWorld (keymap w)
            (dom w ++ addClass "is-selected" (rendered renderSuggestion v)
                        :: map (rendered renderSuggestion) rest)
            (poppers w) (input_value w) (panel_attached w) (popper w)
            fresh (Some vals) (Some fresh) (Some (Int 0)) /\
  calls r
  = zip_with OwnerRender vals fresh
      ++ [WrapAroundCall (Int 0) (Int (Z.of_nat (List.length vals)))] /\
  count_calls is_scroll (calls r) = 0%nat /\
  (forall el : ElId,
      In el (container_children (final r)) -> (n <= el)%nat) /\
  selectedEls (final r) = [n].
Proof.
  intros Hrender vals n fresh r.
  assert (Hfinal :
    final r
    = mkWorld (keymap w)
              (dom w ++ addClass "is-selected" (rendered renderSuggestion v)
                          :: map (rendered renderSuggestion) rest)
              (poppers w) (input_value w) (panel_attached w) (popper w)
              fresh (Some vals) (Some fresh) (Some (Int 0))).
  { subst r. rewrite setSuggestions_run. cbn [final].
    fold n. fold vals. fold fresh.
    rewrite wrapAround_mod by (subst vals; cbn; lia).
    rewrite Z.mod_0_l by (subst vals; cbn; lia).
    f_equal.
    assert (Hprev :
      onElement (removeClass "is-selected")
                (js_index fresh (selectedItem w))
                (dom w ++ map (rendered renderSuggestion) vals)
      = dom w ++ map (rendered renderSuggestion) vals).
    { destruct (js_index fresh (selectedItem w)) as [p |] eqn:Hp;
        [| reflexivity].
      apply js_index_seq in Hp. cbn [onElement].
      apply alter_fixed_points. intros x Hx.
      rewrite lookup_app_r in Hx by (fold n; lia).
      rewrite lookup_map in Hx.
      destruct (vals !! (p - List.length (dom w))%nat) as [y |];
        [| discriminate].
      cbn in Hx. injection Hx as <-.
      apply removeClass_absent, Hrender. }
    rewrite Hprev.
    subst fresh vals. cbn [List.length seq].
    unfold js_index. cbn [Z.ltb Z.compare].
    change ((n :: seq (S n) (List.length rest)) !! Z.to_nat 0) with (Some n).
    cbn [onElement].
    rewrite (alter_app_r_alt _ (dom w) _ n) by (subst n; lia).
    subst n. rewrite Nat.sub_diag. reflexivity. }
  repeat split.
  - subst r. now rewrite setSuggestions_run.
  - exact Hfinal.
  - subst r. rewrite setSuggestions_run. reflexivity.
  - subst r. rewrite setSuggestions_run. cbn [calls].
    unfold count_calls. rewrite List.filter_app. cbn.
    rewrite filter_none; [reflexivity |].
    intros c Hc. fold n in Hc.
    apply list_elem_of_In, elem_of_lookup_zip_with in Hc
      as (i & x & el & -> & _ & _).
    reflexivity.
  - rewrite Hfinal. cbn [container_children]. intros el Hel.
    subst fresh. apply in_seq in Hel. lia.
  - rewrite Hfinal. unfold selectedEls. cbn [container_children dom].
    subst fresh vals. cbn [List.length seq List.filter].
    rewrite lookup_app_r by (subst n; lia).
    subst n. rewrite Nat.sub_diag. cbn [lookup list_lookup].
    rewrite hasClass_addClass. f_equal.
    apply filter_none. intros el Hel.
    apply in_seq in Hel.
    rewrite lookup_app_r by lia.
    destruct (el - List.length (dom w))%nat as [| j] eqn:Hj; [lia |].
    cbn [lookup list_lookup].
    now apply (map_lookup_all_false (rendered renderSuggestion)
                 (hasClass "is-selected") rest j).
Qed.

Lemma setSuggestions_empty_run (w : World T) :
  setSuggestions renderSuggestion [] w
  = mkRun (Returned tt)
          (mkWorld (keymap w) (dom w) (poppers w) (input_value w)
                   (panel_attached w) (popper w) [] (Some []) (Some [])
                   (Some NaN))
          [WrapAroundCall (Int 0) (Int 0)].
Proof.
  rewrite setSuggestions_run. cbn [List.length seq map zip_with app].
  rewrite !js_index_nil. cbn [onElement].
  rewrite app_nil_r. change (Z.of_nat 0) with 0.
  now rewrite wrapAround_zero_size.
Qed.

Lemma wrapSizes_renders (vals : list T) (els : list ElId) :
  wrapSizes (zip_with OwnerRender vals els) = [].
Proof.
  revert els. induction vals as [| v vals IH]; intros [| el els];
    cbn; auto.
  apply IH.
Qed.

(** ** The binding layer *)

Lemma open_run (w : World T) :
  open w
  = mkRun (Returned tt)
          (mkWorld (pushScope ThisScope (keymap w)) (dom w)
                   (poppers w ++ [true]) (input_value w) true
                   (Some (List.length (poppers w))) (container_children w)
                   (values w) (suggestions w) (selectedItem w))
          [KeymapPush; AppendPanel; CreatePopper (List.length (poppers w))].
Proof. destruct w. reflexivity. Qed.

Lemma close_run (w : World T) :
  close renderSuggestion w
  = mkRun (Returned tt)
          (mkWorld (popScope ThisScope (keymap w)) (dom w)
                   (match popper w with
                    | Some p => <[p := false]> (poppers w)
                    | None => poppers w
                    end)
                   (input_value w) false (popper w) [] (Some []) (Some [])
                   (Some NaN))
          (KeymapPop :: WrapAroundCall (Int 0) (Int 0)
             :: match popper w with
                | Some p => [DestroyPopper p; DetachPanel]
                | None => [DetachPanel]
                end).
Proof.
  destruct w as [km d pp iv pa po cc vs sg si].
  unfold close, bind, emit, modify, gets, ret. cbn.
  rewrite setSuggestions_empty_run. cbn.
  destruct po as [p |]; reflexivity.
Qed.

Lemma close_returns (w : World T) :
  outcome (close renderSuggestion w) = Returned tt.
Proof. now rewrite close_run. Qed.

Lemma scope_eqb_refl (s : Scope) : scope_eqb s s = true.
Proof. destruct s; cbn; [reflexivity | apply Nat.eqb_refl]. Qed.

Lemma scope_eqb_sym (a b : Scope) : scope_eqb a b = scope_eqb b a.
Proof. destruct a, b; cbn; try reflexivity. apply Nat.eqb_sym. Qed.

Lemma popScope_pushScope (s : Scope) (k : list Scope) :
  popScope s (pushScope s k) = k.
Proof. unfold popScope, pushScope. now rewrite scope_eqb_refl. Qed.

Lemma filter_out_absent (s : Scope) (k : list Scope) :
  count_scope s k = 0%nat ->
  List.filter (fun u => negb (scope_eqb u s)) k = k.
Proof.
  unfold count_scope. induction k as [| t k IH]; [reflexivity |].
  cbn. rewrite (scope_eqb_sym t s).
  destruct (scope_eqb s t); cbn; [discriminate |].
  intros H. f_equal. now apply IH.
Qed.

Lemma count_scope_filter_out (s : Scope) (k : list Scope) :
  count_scope s (List.filter (fun u => negb (scope_eqb u s)) k) = 0%nat.
Proof.
  unfold count_scope. induction k as [| t k IH]; [reflexivity |].
  cbn. destruct (scope_eqb t s) eqn:E; cbn; [exact IH |].
  rewrite (scope_eqb_sym s t), E. exact IH.
Qed.

Lemma popScope_absent (s : Scope) (k : list Scope) :
  count_scope s k = 0%nat -> popScope s k = k.
Proof.
  intros H. destruct k as [| t k]; [reflexivity |].
  unfold popScope. destruct (scope_eqb t s) eqn:E.
  - unfold count_scope in H. cbn in H.
    rewrite (scope_eqb_sym s t), E in H. discriminate.
  - now apply filter_out_absent.
Qed.

Lemma count_scope_popScope (s : Scope) (k : list Scope) :
  (count_scope s k <= 1)%nat -> count_scope s (popScope s k) = 0%nat.
Proof.
  intros H. destruct k as [| t k]; [reflexivity |].
  unfold popScope. destruct (scope_eqb t s) eqn:E.
  - unfold count_scope in *. cbn in H.
    rewrite (scope_eqb_sym s t), E in H. cbn in H. lia.
  - apply count_scope_filter_out.
Qed.

(** C2, as the code has it.  [wrapAround] is called with the number of
    rendered elements as its size: a positive size when [setSuggestions]
    receives a non-empty list and when [setSelectedItem] runs on a
    non-empty list, but size 0 when [setSuggestions] receives the empty
    list, which every [close] does.  That call returns [NaN], nothing is
    thrown, no element changes, and [NaN] is stored as the selected
    index. *)
Theorem wrapAround_sizes (w : World T) :
  (forall (v : T) (rest : list T),
      wrapSizes (calls (setSuggestions renderSuggestion (v :: rest) w))
      = [Int (Z.of_nat (S (List.length rest)))]) /\
  (forall (idx : num) (scroll : bool),
      wrapSizes (calls (setSelectedItem idx scroll w))
      = match suggestions w with
        | Some els => [Int (Z.of_nat (List.length els))]
        | None => []
        end) /\
  (let r := setSuggestions renderSuggestion [] w in
   wrapSizes (calls r) = [Int 0] /\
   wrapAround (Int 0) (Int 0) = NaN /\
   outcome r = Returned tt /\
   dom (final r) = dom w /\
   selectedItem (final r) = Some NaN) /\
  (let r := close renderSuggestion w in
   wrapSizes (calls r) = [Int 0] /\
   outcome r = Returned tt /\
   dom (final r) = dom w /\
   selectedItem (final r) = Some NaN).
Proof.
  repeat split.
  - intros v rest. rewrite setSuggestions_run. cbn [calls].
    unfold wrapSizes at 1. rewrite flat_map_app.
    fold (wrapSizes (zip_with OwnerRender (v :: rest)
                       (seq (List.length (dom w))
                            (List.length (v :: rest))))).
    rewrite wrapSizes_renders. reflexivity.
  - intros idx scroll. destruct (suggestions w) as [els |] eqn:Hs.
    + rewrite (setSelectedItem_run w els idx scroll Hs). cbn [calls].
      destruct scroll; [| reflexivity].
      now destruct (js_index els _).
    + destruct w as [km d pp iv pa po cc vs sg si]. cbn in Hs. subst sg.
      reflexivity.
  - now rewrite setSuggestions_empty_run.
  - now rewrite setSuggestions_empty_run.
  - now rewrite setSuggestions_empty_run.
  - now rewrite setSuggestions_empty_run.
  - rewrite close_run. cbn [calls]. now destruct (popper w).
  - now rewrite close_run.
  - now rewrite close_run.
  - now rewrite close_run.
Qed.

Lemma onInputChanged_run (getSuggestions : string -> option (list T))
  (w : World T) :
  onInputChanged getSuggestions renderSuggestion w
  = match getSuggestions (input_value w) with
    | Some (v :: rest) =>
        (setSuggestions renderSuggestion (v :: rest) ;; open) w
    | _ => close renderSuggestion w
    end.
Proof.
  unfold onInputChanged. unfold bind at 1. unfold gets. cbn.
  destruct (getSuggestions (input_value w)) as [[| v rest] |]; cbn.
  - change (0 <? Z.of_nat 0) with false.
    now destruct (close renderSuggestion w).
  - replace (0 <? Z.of_nat (S (List.length rest))) with true
      by (symmetry; apply Z.ltb_lt; lia).
    now destruct ((setSuggestions renderSuggestion (v :: rest) ;; open) w).
  - now destruct (close renderSuggestion w).
Qed.

(** An input-changed or focus event with candidates, in closed form. *)
Lemma onInputChanged_open_run (getSuggestions : string -> option (list T))
  (w : World T) (v : T) (rest : list T) :
  getSuggestions (input_value w) = Some (v :: rest) ->
  let r := onInputChanged getSuggestions renderSuggestion w in
  let s := final (setSuggestions renderSuggestion (v :: rest) w) in
  outcome r = Returned tt /\
  final r = final (open s) /\
  calls r
  = calls (setSuggestions renderSuggestion (v :: rest) w) ++ calls (open s).
Proof.
  intros Hg. cbv zeta. rewrite onInputChanged_run, Hg.
  unfold bind. rewrite setSuggestions_run. cbn [final].
  rewrite open_run. cbn. auto.
Qed.

(** C1, as the code has it.  [open] pushes the widget's scope exactly once
    and pops nothing, [close] pops it exactly once and pushes nothing, and
    a [close] that directly follows an [open] restores the host's stack.
    From a world whose stack does not hold the widget's scope, one
    input-changed or focus event followed by one [close] leaves the stack
    as it was, without the widget's scope. *)
Theorem open_close_paired (getSuggestions : string -> option (list T))
  (w : World T) :
  count_scope ThisScope (keymap w) = 0%nat ->
  (count_calls is_push (calls (open w)) = 1%nat /\
   count_calls is_pop (calls (open w)) = 0%nat /\
   keymap (final (open w)) = pushScope ThisScope (keymap w)) /\
  (count_calls is_push (calls (close renderSuggestion w)) = 0%nat /\
   count_calls is_pop (calls (close renderSuggestion w)) = 1%nat /\
   keymap (final (close renderSuggestion w))
   = popScope ThisScope (keymap w)) /\
  keymap (final (close renderSuggestion (final (open w)))) = keymap w /\
  (let w1 := final (onInputChanged getSuggestions renderSuggestion w) in
   let w2 := final (close renderSuggestion w1) in
   keymap w2 = keymap w /\
   count_scope ThisScope (keymap w2) = 0%nat /\
   panel_attached w2 = false).
Proof.
  intros Hfree.
  assert (Hclose_calls :
    forall u : World T,
      count_calls is_push (calls (close renderSuggestion u)) = 0%nat /\
      count_calls is_pop (calls (close renderSuggestion u)) = 1%nat).
  { intros u. rewrite close_run. cbn [calls].
    now destruct (popper u). }
  split; [| split; [| split]].
  - now rewrite open_run.
  - destruct (Hclose_calls w) as [Hpush Hpop].
    repeat split; try assumption. now rewrite close_run.
  - rewrite close_run, open_run. cbn [keymap final].
    apply popScope_pushScope.
  - cbv zeta.
    assert (Hk :
      keymap (final (close renderSuggestion
                (final (onInputChanged getSuggestions renderSuggestion w))))
      = keymap w).
    { rewrite close_run. cbn [final keymap].
      destruct (getSuggestions (input_value w)) as [[| v rest] |] eqn:Hg.
      - rewrite onInputChanged_run, Hg, close_run. cbn [final keymap].
        rewrite (popScope_absent _ _ Hfree).
        now apply popScope_absent.
      - destruct (onInputChanged_open_run getSuggestions w v rest Hg)
          as (_ & -> & _).
        rewrite open_run, setSuggestions_run. cbn [final keymap].
        apply popScope_pushScope.
      - rewrite onInputChanged_run, Hg, close_run. cbn [final keymap].
        rewrite (popScope_absent _ _ Hfree).
        now apply popScope_absent. }
    repeat split.
    + exact Hk.
    + now rewrite Hk.
    + now rewrite close_run.
Qed.

(** A second [close] changes nothing the widget owns; the host's stack
    loses one more entry when the scope was pushed more than once. *)
Lemma close_twice_general (w : World T) :
  let w1 := final (close renderSuggestion w) in
  close renderSuggestion w1
  = mkRun (Returned tt)
          (set_keymap (popScope ThisScope (keymap w1)) w1)
          (calls (close renderSuggestion w1)).
Proof.
  cbv zeta. rewrite !close_run. cbn.
  destruct (popper w) as [p |]; [| reflexivity].
  now rewrite list_insert_insert_eq.
Qed.

(** C6, as the code has it.  [close] never throws, in any world.  When the
    widget's scope is on the host's stack at most once (the panel was never
    opened, is already closed, or was opened by a single push), a second
    [close] leaves exactly the world the first one left: the scope off the
    stack, no rendered element, the positioning instance (if there is one)
    destroyed, the panel detached. *)
Theorem close_twice_same_state (w : World T) :
  (count_scope ThisScope (keymap w) <= 1)%nat ->
  let r1 := close renderSuggestion w in
  let r2 := close renderSuggestion (final r1) in
  outcome r1 = Returned tt /\
  outcome r2 = Returned tt /\
  final r2 = final r1 /\
  count_scope ThisScope (keymap (final r1)) = 0%nat /\
  container_children (final r1) = [] /\
  values (final r1) = Some [] /\
  panelState (final r1) = Closed /\
  (forall p : PopperId,
      popper (final r1) = Some p -> poppers (final r1) !! p <> Some true) /\
  (forall u : World T, outcome (close renderSuggestion u) = Returned tt).
Proof.
  intros Hone r1 r2.
  assert (Hk : count_scope ThisScope (keymap (final r1)) = 0%nat).
  { subst r1. rewrite close_run. cbn [final keymap].
    now apply count_scope_popScope. }
  repeat split.
  - apply close_returns.
  - apply close_returns.
  - subst r2 r1. rewrite close_twice_general. cbn [final].
    rewrite (popScope_absent _ _ Hk).
    now destruct (final (close renderSuggestion w)).
  - exact Hk.
  - subst r1. now rewrite close_run.
  - subst r1. now rewrite close_run.
  - subst r1. now rewrite close_run.
  - subst r1. rewrite close_run. cbn [final popper poppers].
    intros p ->.
    destruct (lt_dec p (List.length (poppers w))) as [Hlt | Hge].
    + rewrite list_lookup_insert_eq by assumption. discriminate.
    + rewrite lookup_ge_None_2; [discriminate |].
      rewrite length_insert. lia.
  - intros u. apply close_returns.
Qed.

(** C7.  On an input-changed or focus event the binding layer asks the
    source for the candidates of the field's current text.  An absent
    result and an empty list both run [close], which leaves the panel
    Closed with nothing rendered.  A non-empty list is handed to the list
    controller, one element per candidate with the first one selected, and
    the panel is left Open: attached, the widget's scope active on the
    host's stack, and positioned by a new, live positioning instance. *)
Theorem onInputChanged_transitions
  (getSuggestions : string -> option (list T)) (w : World T) :
  let r := onInputChanged getSuggestions renderSuggestion w in
  match getSuggestions (input_value w) with
  | Some (v :: rest) =>
      outcome r = Returned tt /\
      panelState (final r) = Open /\
      head (keymap (final r)) = Some ThisScope /\
      values (final r) = Some (v :: rest) /\
      suggestions (final r)
      = Some (seq (List.length (dom w)) (List.length (v :: rest))) /\
      container_children (final r)
      = seq (List.length (dom w)) (List.length (v :: rest)) /\
      selectedItem (final r) = Some (Int 0) /\
      popper (final r) = Some (List.length (poppers w)) /\
      poppers (final r) !! List.length (poppers w) = Some true /\
      input_value (final r) = input_value w
  | _ =>
      r = close renderSuggestion w /\
      outcome r = Returned tt /\
      panelState (final r) = Closed /\
      container_children (final r) = [] /\
      values (final r) = Some [] /\
      input_value (final r) = input_value w
  end.
Proof.
  cbv zeta.
  destruct (getSuggestions (input_value w)) as [[| v rest] |] eqn:Hg.
  - rewrite onInputChanged_run, Hg, close_run. cbn. auto 10.
  - destruct (onInputChanged_open_run getSuggestions w v rest Hg)
      as (Ho & Hf & _).
    rewrite Hf, open_run, setSuggestions_run. cbn.
    rewrite wrapAround_mod by lia.
    rewrite Z.mod_0_l by lia.
    repeat split; try reflexivity.
    + exact Ho.
    + rewrite lookup_app_r by lia.
      now rewrite Nat.sub_diag.
  - rewrite onInputChanged_run, Hg, close_run. cbn. auto 10.
Qed.

Lemma onInputChanged_returns (getSuggestions : string -> option (list T))
  (w : World T) :
  outcome (onInputChanged getSuggestions renderSuggestion w) = Returned tt /\
  input_value (final (onInputChanged getSuggestions renderSuggestion w))
  = input_value w.
Proof.
  destruct (getSuggestions (input_value w)) as [[| v rest] |] eqn:Hg.
  - rewrite onInputChanged_run, Hg, close_run. auto.
  - destruct (onInputChanged_open_run getSuggestions w v rest Hg)
      as (Ho & Hf & _).
    rewrite Ho, Hf, open_run, setSuggestions_run. auto.
  - rewrite onInputChanged_run, Hg, close_run. auto.
Qed.

(** ** Using the selected item *)

Variable truthy : T -> bool.
Variable selectSuggestion : T -> DomEvent -> M T unit.

Lemma useSelectedItem_run (event : DomEvent) (w : World T) (vs : list T) :
  values w = Some vs ->
  useSelectedItem truthy selectSuggestion event w
  = match js_index vs (selectedItem w) with
    | Some currentValue =>
        if truthy currentValue then
          mkRun (outcome (selectSuggestion currentValue event w))
                (final (selectSuggestion currentValue event w))
                (OwnerSelect currentValue event
                   :: calls (selectSuggestion currentValue event w))
        else mkRun (Returned tt) w []
    | None => mkRun (Returned tt) w []
    end.
Proof.
  intros Hv. destruct w as [km d pp iv pa po cc vals sg si].
  cbn in Hv. subst vals.
  unfold useSelectedItem, bind, gets, emit, ret. cbn.
  destruct (js_index vs si) as [x |]; [| reflexivity].
  destruct (truthy x); [| reflexivity].
  now destruct (selectSuggestion x event _).
Qed.

(** C9, as the code has it.  With an empty set [useSelectedItem] returns
    without calling the owner and without an error, whatever the select
    capability is.  With a selection in range whose candidate is truthy, it
    calls the select capability exactly once, with that candidate and the
    originating event, on the world as it found it. *)
Theorem useSelectedItem_selects_truthy (event : DomEvent) (w : World T)
  (vs : list T) (v : T) :
  values w = Some vs ->
  js_index vs (selectedItem w) = Some v ->
  truthy v = true ->
  let r := useSelectedItem truthy selectSuggestion event w in
  (outcome r = outcome (selectSuggestion v event w) /\
   final r = final (selectSuggestion v event w) /\
   calls r = OwnerSelect v event :: calls (selectSuggestion v event w)) /\
  (forall u : World T,
      useSelectedItem truthy selectSuggestion event (set_values (Some []) u)
      = mkRun (Returned tt) (set_values (Some []) u) []).
Proof.
  intros Hv Hsel Ht. cbv zeta. split.
  - rewrite (useSelectedItem_run event w vs Hv), Hsel, Ht. auto.
  - intros u. rewrite (useSelectedItem_run event _ []) by now destruct u.
    now rewrite js_index_nil.
Qed.

(** C10.  The guard of [useSelectedItem] is the truthiness of the selected
    value: on a non-empty list whose selected element is falsy, the owner's
    select capability is not called at all and nothing changes, although
    the selection is a valid one. *)
Theorem useSelectedItem_skips_falsy (event : DomEvent) (w : World T)
  (vs : list T) (v : T) :
  values w = Some vs ->
  js_index vs (selectedItem w) = Some v ->
  truthy v = false ->
  vs <> [] /\
  useSelectedItem truthy selectSuggestion event w
  = mkRun (Returned tt) w [].
Proof.
  intros Hv Hsel Hf. split.
  - intros ->. now rewrite js_index_nil in Hsel.
  - now rewrite (useSelectedItem_run event w vs Hv), Hsel, Hf.
Qed.

End SuggestProps.

(** ** The folder source *)

Lemma prefix_append (t s : string) :
  String.prefix t s = true <-> exists b, s = (t ++ b)%string.
Proof.
  revert s. induction t as [| c t IH]; intros s.
  - split; [intros _; now exists s | intros _; now destruct s].
  - destruct s as [| d s]; cbn.
    + split; [discriminate | intros [b Hb]; discriminate].
    + destruct (Ascii.ascii_dec c d) as [-> | Hne].
      * rewrite IH. split.
        -- intros [b ->]. now exists b.
        -- intros [b Hb]. injection Hb as ->. now exists b.
      * split; [discriminate |].
        intros [b Hb]. injection Hb as Hcd _. congruence.
Qed.

Lemma contains_unfold (s t : string) :
  contains s t
  = if String.prefix t s then true
    else match s with
         | EmptyString => false
         | String _ s' => contains s' t
         end.
Proof. destruct s; reflexivity. Qed.

(** [contains] is substring containment. *)
Lemma contains_substring (s t : string) :
  contains s t = true <-> exists a b, s = (a ++ t ++ b)%string.
Proof.
  split.
  - induction s as [| c s IH]; rewrite contains_unfold;
      destruct (String.prefix t _) eqn:Hp.
    + intros _. apply prefix_append in Hp as [b ->]. now exists ""%string, b.
    + discriminate.
    + intros _. apply prefix_append in Hp as [b ->]. now exists ""%string, b.
    + intros H. destruct (IH H) as (a & b & ->).
      now exists (String c a), b.
  - intros (a & b & ->). induction a as [| c a IH].
    + rewrite contains_unfold.
      replace (String.prefix t ("" ++ t ++ b)) with true; [reflexivity |].
      symmetry. apply prefix_append. now exists b.
    + rewrite contains_unfold.
      destruct (String.prefix t _); [reflexivity |].
      exact IH.
Qed.

Lemma fold_left_collect (q : string) (files : list TAbstractFile) :
  forall acc : list TFolder,
    fold_left (FolderSuggest.collect q) files acc
    = acc ++ List.filter (fun f => contains (toLowerCase (path f)) q)
                         (foldersOf files).
Proof.
  induction files as [| a files IH]; intros acc; cbn.
  - now rewrite app_nil_r.
  - rewrite IH. destruct a as [p | f]; cbn; [reflexivity |].
    destruct (contains (toLowerCase (path f)) q); cbn; [| reflexivity].
    now rewrite <- app_assoc.
Qed.

(** C8.  For every input, the folder source returns the known folders whose
    lower-cased path contains the lower-cased input as a substring, in the
    order of the vault, cut to the first 1000.  Selecting a folder writes its
    path into the bound field, dispatches the input event (whose listener
    runs at once) and then closes the panel.  With the three folders of
    scenario 1 and the input "pro", the suggestions are Projects/Work and
    Projects/Personal, and the selected index is 0. *)
Theorem folder_source_filters_and_selects (abstractFiles : list TAbstractFile)
  (inputStr : string) (file : TFolder) (event : DomEvent)
  (w : World TFolder) :
  FolderSuggest.getSuggestions abstractFiles inputStr
  = firstn 1000 (List.filter (matchesInput inputStr) (foldersOf abstractFiles)) /\
  (forall f : TFolder,
      matchesInput inputStr f = true <->
      exists a b : string,
        toLowerCase (path f) = (a ++ toLowerCase inputStr ++ b)%string) /\
  (let r := FolderSuggest.selectSuggestion abstractFiles file event w in
   let r1 := onInputChanged (FolderSuggest.source abstractFiles)
                            FolderSuggest.renderSuggestion
                            (set_input_value (path file) w) in
   let r2 := close FolderSuggest.renderSuggestion (final r1) in
   outcome r = Returned tt /\
   calls r = SetInputValue (path file) :: TriggerInput :: calls r1 ++ calls r2 /\
   final r = final r2 /\
   input_value (final r) = path file /\
   panelState (final r) = Closed /\
   container_children (final r) = [] /\
   values (final r) = Some []) /\
  (foldersOf scenarioVault
   = [mkTFolder "Projects/Work"; mkTFolder "Projects/Personal";
      mkTFolder "Journal"] /\
   values scenarioOpen
   = Some [mkTFolder "Projects/Work"; mkTFolder "Projects/Personal"] /\
   selectedItem scenarioOpen = Some (Int 0)).
Proof.
  split; [| split; [| split]].
  - unfold FolderSuggest.getSuggestions. cbv zeta.
    now rewrite fold_left_collect.
  - intros f. apply contains_substring.
  - cbv zeta.
    unfold FolderSuggest.selectSuggestion, bind, emit, modify. cbn.
    destruct (onInputChanged_returns FolderSuggest.renderSuggestion
                (FolderSuggest.source abstractFiles)
                (set_input_value (path file) w)) as [Ho Hin].
    destruct (onInputChanged (FolderSuggest.source abstractFiles)
                FolderSuggest.renderSuggestion
                (set_input_value (path file) w)) as [o1 w1 c1].
    cbn in Ho, Hin. subst o1. cbn.
    rewrite !close_run. cbn.
    repeat split; try reflexivity; exact Hin.
  - repeat split.
Qed.

(** ** The properties at concrete inputs *)

(** The user types "p", then "r", then leaves the field.  The panel is
    closed, but the widget's scope is still the active scope of the host:
    two pushes were answered by one pop. *)
Lemma scope_left_after_blur :
  let evs := [UserInput "p"; UserInput "pr"; UserBlur] in
  let w := FolderSuggest.handleAll scenarioVault evs (initial TFolder) in
  let cs := FolderSuggest.callsOfAll scenarioVault evs (initial TFolder) in
  panelState w = Closed /\
  values w = Some [] /\
  keymap w = [ThisScope; HostScope 0] /\
  count_scope ThisScope (keymap w) = 1%nat /\
  count_calls is_push cs = 2%nat /\
  count_calls is_pop cs = 1%nat.
Proof. vm_compute. repeat split. Qed.

Lemma open_close_paired_witness :
  let w := initial TFolder in
  let w1 := final (onInputChanged (FolderSuggest.source scenarioVault)
                                  FolderSuggest.renderSuggestion w) in
  keymap (final (close FolderSuggest.renderSuggestion w1)) = keymap w.
Proof.
  cbv zeta.
  apply (open_close_paired FolderSuggest.renderSuggestion
           (FolderSuggest.source scenarioVault) (initial TFolder)).
  reflexivity.
Defined.

(** [close] on a new widget, and [setSuggestions([])] on an open panel, call
    [wrapAround] with size 0. *)
Lemma wrapAround_called_with_size_zero :
  wrapSizes (calls (close FolderSuggest.renderSuggestion (initial TFolder)))
  = [Int 0] /\
  wrapSizes (calls (setSuggestions FolderSuggest.renderSuggestion []
                                   scenarioOpen))
  = [Int 0] /\
  ~ (forall n : num,
        In n (wrapSizes (calls (close FolderSuggest.renderSuggestion
                                      (initial TFolder)))) ->
        exists z : Z, n = Int z /\ 0 < z).
Proof.
  split; [vm_compute; reflexivity |].
  split; [vm_compute; reflexivity |].
  intros H. destruct (H (Int 0)) as (z & Hz & Hpos).
  - vm_compute. now left.
  - injection Hz as <-. lia.
Qed.

Lemma setSuggestions_renders_and_selects_first_witness :
  selectedEls
    (final (setSuggestions FolderSuggest.renderSuggestion
              [mkTFolder "Projects/Work"; mkTFolder "Projects/Personal"]
              (initial TFolder)))
  = [0%nat].
Proof.
  apply (setSuggestions_renders_and_selects_first
           FolderSuggest.renderSuggestion (initial TFolder)
           (mkTFolder "Projects/Work") [mkTFolder "Projects/Personal"]).
  intros x. reflexivity.
Defined.


(** After two input events with candidates, one [close] leaves the widget's
    scope active and a second one removes it: the two worlds differ. *)
Lemma second_close_pops_again :
  let w1 := final (close FolderSuggest.renderSuggestion scenarioTypedTwice) in
  let w2 := final (close FolderSuggest.renderSuggestion w1) in
  keymap w1 = [ThisScope; HostScope 0] /\
  keymap w2 = [HostScope 0] /\
  w2 <> w1.
Proof.
  cbv zeta. split; [vm_compute; reflexivity |].
  split; [vm_compute; reflexivity |].
  intros H. apply (f_equal keymap) in H. vm_compute in H. discriminate.
Qed.

Lemma close_twice_same_state_witness :
  final (close FolderSuggest.renderSuggestion
           (final (close FolderSuggest.renderSuggestion scenarioOpen)))
  = final (close FolderSuggest.renderSuggestion scenarioOpen).
Proof.
  apply (close_twice_same_state FolderSuggest.renderSuggestion scenarioOpen).
  vm_compute. lia.
Defined.

(** A string source whose first candidate is the empty string: the panel is
    open, candidate 0 is selected and marked, and Enter does not reach the
    owner's select capability. *)
Lemma select_not_called_for_empty_string :
  let w := TextSuggest.focused in
  let event := KeyboardEvent Enter false in
  let r := useSelectedItem TextSuggest.truthy TextSuggest.selectSuggestion
                           event w in
  values w = Some [""%string; "inbox"%string] /\
  selectedItem w = Some (Int 0) /\
  selectedEls w = [0%nat] /\
  outcome r = Returned tt /\
  calls r = [] /\
  calls r <> OwnerSelect ""%string event
               :: calls (TextSuggest.selectSuggestion ""%string event w).
Proof.
  cbv zeta. repeat split; try (vm_compute; reflexivity).
  vm_compute. discriminate.
Qed.

Lemma useSelectedItem_selects_truthy_witness :
  let event := KeyboardEvent Enter false in
  calls (useSelectedItem FolderSuggest.truthy
           (FolderSuggest.selectSuggestion scenarioVault) event scenarioOpen)
  = OwnerSelect (mkTFolder "Projects/Work") event
      :: calls (FolderSuggest.selectSuggestion scenarioVault
                  (mkTFolder "Projects/Work") event scenarioOpen).
Proof.
  cbv zeta.
  apply (useSelectedItem_selects_truthy FolderSuggest.truthy
           (FolderSuggest.selectSuggestion scenarioVault)
           (KeyboardEvent Enter false) scenarioOpen
           [mkTFolder "Projects/Work"; mkTFolder "Projects/Personal"]
           (mkTFolder "Projects/Work")); reflexivity.
Defined.

Lemma useSelectedItem_skips_falsy_witness :
  useSelectedItem TextSuggest.truthy TextSuggest.selectSuggestion
                  (KeyboardEvent Enter false) TextSuggest.focused
  = mkRun (Returned tt) TextSuggest.focused [].
Proof.
  apply (useSelectedItem_skips_falsy TextSuggest.truthy
           TextSuggest.selectSuggestion (KeyboardEvent Enter false)
           TextSuggest.focused [""%string; "inbox"%string] ""%string);
    reflexivity.
Defined.

(** * Further properties of the code *)

(** ** Index wrapping, edge cases *)

(** X1.  For a positive size, [wrapAround] is idempotent, leaves an index
    that is already in range as it is, sends [-1] to the last index and the
    size itself to 0. *)
Theorem wrapAround_idempotent_on_range (v n : Z) :
  0 < n ->
  wrapAround (wrapAround (Int v) (Int n)) (Int n) = wrapAround (Int v) (Int n) /\
  (0 <= v < n -> wrapAround (Int v) (Int n) = Int v) /\
  wrapAround (Int (-1)) (Int n) = Int (n - 1) /\
  wrapAround (Int n) (Int n) = Int 0.
Proof.
  intros Hn. split; [| split; [| split]].
  - rewrite !wrapAround_mod by assumption. now rewrite Z.mod_mod by lia.
  - intros Hv. rewrite wrapAround_mod by assumption.
    now rewrite Z.mod_small.
  - rewrite wrapAround_mod by assumption. f_equal.
    replace (-1) with ((n - 1) + (-1) * n) by lia.
    rewrite Z_mod_plus_full. apply Z.mod_small. lia.
  - rewrite wrapAround_mod by assumption. now rewrite Z.mod_same by lia.
Qed.

Lemma wrapAround_idempotent_on_range_witness :
  wrapAround (Int 3) (Int 5) = Int 3.
Proof.
  apply (wrapAround_idempotent_on_range 3 5); lia.
Defined.

(** ** The list controller, edge cases and invariants *)

Section ControllerExtras.

Context {T : Type}.
Variable renderSuggestion : T -> Element -> Element.

(** X2.  When [setSelectedItem] throws, for an integer index.  With
    [suggestions] unassigned it throws at once and changes nothing.  On an
    empty list it stores [NaN] as the selected index, calls [wrapAround] with
    size 0, changes no element, and throws only if scrolling into view was
    requested.  On a non-empty list it never throws. *)
Theorem setSelectedItem_throws (w : World T) (idx : Z) (scroll : bool) :
  let r := setSelectedItem (Int idx) scroll w in
  match suggestions w with
  | None =>
      r = mkRun (Threw (TypeError "suggestions is undefined")) w []
  | Some [] =>
      outcome r
      = (if scroll
         then Threw (TypeError "selectedSuggestion is undefined")
         else Returned tt) /\
      final r = set_selectedItem (Some NaN) w /\
      calls r = [WrapAroundCall (Int idx) (Int 0)]
  | Some (el :: els) => outcome r = Returned tt
  end.
Proof.
  cbv zeta. destruct (suggestions w) as [[| el els] |] eqn:Hs.
  - rewrite (setSelectedItem_run w [] (Int idx) scroll Hs).
    cbn [List.length]. change (Z.of_nat 0) with 0.
    rewrite wrapAround_zero_size, !js_index_nil. cbn [onElement].
    destruct w as [km d pp iv pa po cc vs sg si].
    destruct scroll; repeat split.
  - assert (Hlen : 0 < Z.of_nat (List.length (el :: els)))
      by (cbn [List.length]; lia).
    now destruct (setSelectedItem_nonempty w (el :: els) idx scroll Hs Hlen).
  - destruct w as [km d pp iv pa po cc vs sg si]. cbn in Hs. subst sg.
    reflexivity.
Qed.

Lemma hasClass_removeClass (c : string) (e : Element) :
  hasClass c (removeClass c e) = false.
Proof.
  destruct e as [cl tx]. unfold hasClass, removeClass. cbn.
  induction cl as [| d cl IH]; [reflexivity |].
  cbn. destruct (String.eqb c d) eqn:E; cbn; [exact IH |].
  now rewrite E, IH.
Qed.

Lemma filter_only {A} (p : A -> bool) (l : list A) (x : A) :
  NoDup l -> In x l ->
  (forall y, In y l -> p y = true <-> y = x) ->
  List.filter p l = [x].
Proof.
  induction l as [| a l IH]; intros Hnd Hin Hp; [contradiction |].
  inversion Hnd as [| ? ? Hna Hnd']; subst. cbn.
  destruct Hin as [-> | Hin].
  - rewrite (proj2 (Hp x (or_introl eq_refl)) eq_refl). f_equal.
    apply filter_none. intros y Hy.
    destruct (p y) eqn:E; [| reflexivity].
    apply (Hp y (or_intror Hy)) in E. subst y.
    exfalso. apply Hna. now apply list_elem_of_In.
  - destruct (p a) eqn:E.
    + apply (Hp a (or_introl eq_refl)) in E. subst a.
      exfalso. apply Hna. now apply list_elem_of_In.
    + apply IH; try assumption.
      intros y Hy. apply Hp. now right.
Qed.

Lemma filter_only_inv {A} (p : A -> bool) (l : list A) (x y : A) :
  List.filter p l = [x] -> In y l -> p y = true -> y = x.
Proof.
  intros Hf Hy Hp.
  assert (Hin : In y (List.filter p l)) by (apply filter_In; auto).
  rewrite Hf in Hin. destruct Hin as [-> | []]. reflexivity.
Qed.

Lemma js_index_In {A} (l : list A) (i : option num) (x : A) :
  js_index l i = Some x -> In x l.
Proof.
  unfold js_index. destruct i as [[| z] |]; try discriminate.
  destruct (Z.ltb z 0); [discriminate |].
  intros H. apply list_elem_of_In. eapply list_elem_of_lookup_2. exact H.
Qed.

(** X3.  The selection mark follows the selected index.  If exactly the
    element read by the selected index carries the mark, then after
    [setSelectedItem] with any integer index (arrow keys, hover, click)
    exactly the element at the wrapped index carries it, and the call
    returned normally. *)
Theorem setSelectedItem_keeps_mark (w : World T) (els : list ElId)
  (el : ElId) (idx : Z) (scroll : bool) :
  MarkedAt w els el ->
  let r := setSelectedItem (Int idx) scroll w in
  exists el' : ElId,
    els !! Z.to_nat (idx mod Z.of_nat (List.length els)) = Some el' /\
    outcome r = Returned tt /\
    MarkedAt (final r) els el'.
Proof.
  intros (Hs & Hc & Hnd & Hdom & Hcur & Hmark). cbv zeta.
  assert (Hlen : 0 < Z.of_nat (List.length els)).
  { destruct els; [now rewrite js_index_nil in Hcur | cbn; lia]. }
  set (n := idx mod Z.of_nat (List.length els)).
  assert (Hn : 0 <= n < Z.of_nat (List.length els))
    by (apply Z.mod_pos_bound; lia).
  destruct (js_index_in_range els n Hn) as [el' Hel'].
  assert (Hlook : els !! Z.to_nat n = Some el').
  { unfold js_index in Hel'.
    destruct (Z.ltb_spec n 0); [lia | exact Hel']. }
  exists el'. split; [exact Hlook |].
  split.
  { now destruct (setSelectedItem_nonempty w els idx scroll Hs Hlen). }
  rewrite (setSelectedItem_run w els (Int idx) scroll Hs). cbn [final].
  rewrite wrapAround_mod by assumption. fold n.
  rewrite Hel', Hcur. cbn [onElement].
  assert (Hin' : In el' els) by (eapply js_index_In; exact Hel').
  destruct w as [km d pp iv pa po cc vs sg si].
  cbn in Hs, Hc, Hdom, Hcur, Hmark |- *. subst sg cc.
  unfold MarkedAt, selectedEls. cbn.
  repeat split; try assumption.
  - intros e He. rewrite !length_alter. now apply Hdom.
  - apply filter_only; try assumption.
    intros y Hy.
    destruct (decide (y = el')) as [-> | Hne].
    + rewrite list_lookup_alter_eq.
      destruct (lookup_lt_is_Some_2 (alter (removeClass "is-selected") el d)
                  el') as [x Hx].
      { rewrite length_alter. now apply Hdom. }
      rewrite Hx. cbn. rewrite hasClass_addClass. tauto.
    + rewrite list_lookup_alter_ne by congruence.
      split; [| congruence]. intros Htrue. exfalso.
      destruct (decide (y = el)) as [-> | Hne2].
      * rewrite list_lookup_alter_eq in Htrue.
        match type of Htrue with
        | context [_ <$> ?o] => destruct o as [x |]
        end; simpl in Htrue; [| easy].
        now rewrite hasClass_removeClass in Htrue.
      * rewrite list_lookup_alter_ne in Htrue by congruence.
        apply Hne2.
        now apply (filter_only_inv _ els el y Hmark Hy).
Qed.

Lemma onArrowUp_step (w : World T) (els : list ElId) (i : Z) :
  suggestions w = Some els ->
  0 < Z.of_nat (List.length els) ->
  selectedItem w = Some (Int i) ->
  let r := onArrowUp (KeyboardEvent ArrowUp false) w in
  outcome r = Returned (Some false) /\
  selectedItem (final r) = Some (Int ((i - 1) mod Z.of_nat (List.length els))) /\
  suggestions (final r) = Some els.
Proof.
  intros Hs Hlen Hi.
  pose proof (setSelectedItem_nonempty w els (i - 1) true Hs Hlen) as H.
  cbv zeta in H. destruct H as (Ho & Hsel & Hsug & _).
  unfold onArrowUp, bind, gets, ret. cbn.
  rewrite Hi. cbn [to_number js_sub].
  destruct (setSelectedItem (Int (i - 1)) true w) as [o w' c].
  cbn in *. subst o. cbn. auto.
Qed.

(** X4.  ArrowUp and ArrowDown undo each other.  On a non-empty list with
    the selected index in range, ArrowDown followed by ArrowUp, and ArrowUp
    followed by ArrowDown, bring the selected index back; both handlers
    return [false]; ArrowUp on index 0 selects the last element and ArrowDown
    on the last element selects index 0. *)
Theorem arrows_are_inverse (w : World T) (els : list ElId) (i : Z) :
  suggestions w = Some els ->
  selectedItem w = Some (Int i) ->
  0 <= i < Z.of_nat (List.length els) ->
  let len := Z.of_nat (List.length els) in
  let up := onArrowUp (KeyboardEvent ArrowUp false) in
  let down := onArrowDown (KeyboardEvent ArrowDown false) in
  outcome (up w) = Returned (Some false) /\
  outcome (down w) = Returned (Some false) /\
  selectedItem (final (up (final (down w)))) = Some (Int i) /\
  selectedItem (final (down (final (up w)))) = Some (Int i) /\
  (i = 0 -> selectedItem (final (up w)) = Some (Int (len - 1))) /\
  (i = len - 1 -> selectedItem (final (down w)) = Some (Int 0)).
Proof.
  intros Hs Hi Hr len up down.
  assert (Hlen : 0 < len) by (subst len; lia).
  destruct (onArrowUp_step w els i Hs Hlen Hi) as (Hou & Hsu & Hgu).
  destruct (onArrowDown_step w els i Hs Hlen Hi) as (Hod & Hsd & Hgd).
  fold len in Hsu, Hsd.
  destruct (onArrowUp_step _ els _ Hgd Hlen Hsd) as (_ & Hdu & _).
  destruct (onArrowDown_step _ els _ Hgu Hlen Hsu) as (_ & Hud & _).
  fold len in Hdu, Hud.
  repeat split; try assumption.
  - subst up down. rewrite Hdu. f_equal. f_equal.
    rewrite Zminus_mod_idemp_l.
    replace (i + 1 - 1) with i by lia. apply Z.mod_small. lia.
  - subst up down. rewrite Hud. f_equal. f_equal.
    rewrite Zplus_mod_idemp_l.
    replace (i - 1 + 1) with i by lia. apply Z.mod_small. lia.
  - intros ->. subst up. rewrite Hsu. f_equal. f_equal.
    replace (0 - 1) with ((len - 1) + (-1) * len) by lia.
    rewrite Z_mod_plus_full. apply Z.mod_small. lia.
  - intros ->. subst down. rewrite Hsd. f_equal. f_equal.
    replace (len - 1 + 1) with (0 + 1 * len) by lia.
    rewrite Z_mod_plus_full. apply Z.mod_small. lia.
Qed.

(** X5.  The guard for input-method composition.  While a composition is in
    progress the ArrowUp, ArrowDown and Enter handlers return nothing (the
    default action is not suppressed), leave the world as it is and call
    nobody, whatever the select capability is.  Escape has no such guard: it
    closes the panel during a composition too. *)
Theorem composing_keys_do_nothing (truthy : T -> bool)
  (selectSuggestion : T -> DomEvent -> M T unit) (k : Key) (w : World T) :
  let r := keyHandler truthy renderSuggestion selectSuggestion k
                      (KeyboardEvent k true) w in
  match k with
  | Escape =>
      outcome r = Returned None /\
      final r = final (close renderSuggestion w) /\
      calls r = calls (close renderSuggestion w)
  | _ => r = mkRun (Returned None) w []
  end.
Proof.
  cbv zeta. destruct k; try reflexivity.
  unfold keyHandler, onEscape, bind, ret. rewrite close_run. cbn.
  rewrite app_nil_r. auto.
Qed.

Lemma indexOf_spec (els : list ElId) (el : ElId) :
  (~ In el els /\ indexOf els el = -1) \/
  (exists j : nat,
      indexOf els el = Z.of_nat j /\
      els !! j = Some el /\
      Forall (fun y => y <> el) (take j els)).
Proof.
  induction els as [| y els IH].
  - left. split; [intros [] | reflexivity].
  - cbn [indexOf]. destruct (Nat.eqb_spec y el) as [-> | Hne].
    + right. exists 0%nat. repeat split. constructor.
    + destruct IH as [(Hnin & ->) | (j & -> & Hj & Hbefore)].
      * left. cbn. split; [| reflexivity].
        intros [H | H]; [congruence | contradiction].
      * right. exists (S j).
        destruct (Z.ltb_spec (Z.of_nat j) 0) as [Hneg | _]; [lia |].
        repeat split.
        -- lia.
        -- exact Hj.
        -- cbn. constructor; assumption.
Qed.

Lemma indexOf_NoDup (els : list ElId) (j : nat) (el : ElId) :
  NoDup els -> els !! j = Some el -> indexOf els el = Z.of_nat j.
Proof.
  intros Hnd Hj.
  destruct (indexOf_spec els el) as [(Hnin & _) | (k & -> & Hk & _)].
  - exfalso. apply Hnin, list_elem_of_In.
    eapply list_elem_of_lookup_2. exact Hj.
  - f_equal. eapply NoDup_lookup; eassumption.
Qed.

(** X6.  Hovering a rendered element selects it: the selected index becomes
    the position of the hovered element, the handler returns normally, the
    controller's lists stay as they are, and nothing is scrolled into
    view. *)
Theorem mouseover_selects_hovered (w : World T) (els : list ElId) (j : nat)
  (el : ElId) (event : DomEvent) :
  suggestions w = Some els ->
  NoDup els ->
  els !! j = Some el ->
  let r := onSuggestionMouseover event el w in
  outcome r = Returned tt /\
  selectedItem (final r) = Some (Int (Z.of_nat j)) /\
  suggestions (final r) = Some els /\
  values (final r) = values w /\
  count_calls is_scroll (calls r) = 0%nat.
Proof.
  intros Hs Hnd Hj. cbv zeta.
  assert (Hlt : (j < List.length els)%nat) by (eapply lookup_lt_Some; eauto).
  unfold onSuggestionMouseover, bind, gets. cbn. rewrite Hs.
  rewrite (indexOf_NoDup els j el Hnd Hj).
  rewrite (setSelectedItem_run w els (Int (Z.of_nat j)) false Hs).
  rewrite wrapAround_mod by lia. rewrite Z.mod_small by lia.
  destruct w as [km d pp iv pa po cc vs sg si]. cbn. auto.
Qed.

(** X7.  Clicking a rendered element selects it and uses it: the default
    action of the click is prevented, the element's position becomes the
    selected index without scrolling, and the owner's select capability is
    called once, with the value at that position and the click event, on the
    world the selection left. *)
Theorem click_selects_and_uses (truthy : T -> bool)
  (selectSuggestion : T -> DomEvent -> M T unit) (w : World T)
  (els : list ElId) (vs : list T) (j : nat) (el : ElId) (v : T) :
  suggestions w = Some els ->
  values w = Some vs ->
  NoDup els ->
  els !! j = Some el ->
  vs !! j = Some v ->
  truthy v = true ->
  let event := MouseEvent el in
  let r := onSuggestionClick truthy selectSuggestion event el w in
  let w1 := final (setSelectedItem (Int (Z.of_nat j)) false w) in
  selectedItem w1 = Some (Int (Z.of_nat j)) /\
  outcome r = outcome (selectSuggestion v event w1) /\
  final r = final (selectSuggestion v event w1) /\
  calls r
  = [PreventDefault;
     WrapAroundCall (Int (Z.of_nat j)) (Int (Z.of_nat (List.length els)));
     OwnerSelect v event]
      ++ calls (selectSuggestion v event w1).
Proof.
  intros Hs Hv Hnd Hj Hvj Ht. cbv zeta.
  assert (Hlt : (j < List.length els)%nat) by (eapply lookup_lt_Some; eauto).
  assert (Hlen : 0 < Z.of_nat (List.length els)) by lia.
  destruct (setSelectedItem_nonempty w els (Z.of_nat j) false Hs Hlen)
    as (Ho & Hsel & _ & Hvals).
  rewrite Z.mod_small in Hsel by lia.
  split; [exact Hsel |].
  unfold onSuggestionClick, bind, emit, gets. cbn. rewrite Hs.
  rewrite (indexOf_NoDup els j el Hnd Hj).
  assert (Hcalls :
    calls (setSelectedItem (Int (Z.of_nat j)) false w)
    = [WrapAroundCall (Int (Z.of_nat j)) (Int (Z.of_nat (List.length els)))])
    by now rewrite (setSelectedItem_run w els (Int (Z.of_nat j)) false Hs).
  destruct (setSelectedItem (Int (Z.of_nat j)) false w) as [o1 w1 c1].
  cbn in Ho, Hsel, Hvals, Hcalls |- *. subst o1 c1.
  rewrite (useSelectedItem_run truthy selectSuggestion (MouseEvent el) w1 vs)
    by congruence.
  rewrite Hsel. unfold js_index.
  destruct (Z.ltb_spec (Z.of_nat j) 0) as [Hneg | _]; [lia |].
  rewrite Nat2Z.id, Hvj, Ht. cbn. auto.
Qed.

Lemma onElement_keeps_prefix (f : Element -> Element) (o : option ElId)
  (d : list Element) (n : nat) :
  (forall el, o = Some el -> (n <= el)%nat) ->
  take n (onElement f o d) = take n d /\
  List.length (onElement f o d) = List.length d.
Proof.
  intros H. destruct o as [el |]; cbn [onElement]; [| auto].
  split; [apply take_alter_ge; now apply H | apply length_alter].
Qed.

(** X8.  [setSuggestions] rebuilds, it never patches.  For every list of
    values and every render capability it returns normally; the elements
    that were in the store before are left exactly as they were; the store
    grows by one element per value; and the container shows only the new
    elements, none of the earlier ones. *)
Theorem setSuggestions_discards_previous (vals : list T) (w : World T) :
  let r := setSuggestions renderSuggestion vals w in
  let n := List.length (dom w) in
  outcome r = Returned tt /\
  take n (dom (final r)) = dom w /\
  List.length (dom (final r)) = (n + List.length vals)%nat /\
  container_children (final r) = seq n (List.length vals) /\
  suggestions (final r) = Some (seq n (List.length vals)) /\
  values (final r) = Some vals /\
  Forall (fun el => (n <= el)%nat) (container_children (final r)).
Proof.
  cbv zeta. rewrite setSuggestions_run. cbn [outcome final dom
    container_children suggestions values].
  set (n := List.length (dom w)).
  set (fresh := seq n (List.length vals)).
  set (base := dom w ++ map (rendered renderSuggestion) vals).
  assert (Hfresh : forall i el, js_index fresh i = Some el -> (n <= el)%nat).
  { intros i el H. apply js_index_seq in H. lia. }
  destruct (onElement_keeps_prefix (removeClass "is-selected")
              (js_index fresh (selectedItem w)) base n) as [Ht1 Hl1].
  { intros el. apply Hfresh. }
  destruct (onElement_keeps_prefix (addClass "is-selected")
              (js_index fresh
                 (Some (wrapAround (Int 0)
                          (Int (Z.of_nat (List.length vals))))))
              (onElement (removeClass "is-selected")
                 (js_index fresh (selectedItem w)) base) n) as [Ht2 Hl2].
  { intros el. apply Hfresh. }
  repeat split.
  - rewrite Ht2, Ht1. subst base n. apply take_app_length.
  - rewrite Hl2, Hl1. subst base n. rewrite length_app, length_map.
    reflexivity.
  - apply Forall_forall. intros el Hel. subst fresh.
    apply list_elem_of_In, in_seq in Hel. lia.
Qed.

(** X9.  [open] does not release the positioning instance of an earlier
    [open]: after two [open] and one [close], the instance the first [open]
    created is still live and only the second one is destroyed; [close]
    destroys the instance [this.popper] refers to and no other. *)
Theorem close_destroys_latest_popper_only (w : World T) :
  let w2 := final (open (final (open w))) in
  let w3 := final (close renderSuggestion w2) in
  poppers w3 = poppers w ++ [true; false] /\
  popper w3 = Some (S (List.length (poppers w))) /\
  (forall u : World T,
      poppers (final (close renderSuggestion u))
      = match popper u with
        | Some p => <[p := false]> (poppers u)
        | None => poppers u
        end).
Proof.
  cbv zeta. split; [| split].
  - rewrite close_run, !open_run. cbn [final popper poppers].
    rewrite length_app. cbn [List.length].
    rewrite <- app_assoc. cbn [app].
    rewrite Nat.add_1_r.
    rewrite insert_app_r_alt by lia.
    replace (S (List.length (poppers w)) - List.length (poppers w))%nat
      with 1%nat by lia.
    reflexivity.
  - rewrite close_run, !open_run. cbn [final popper poppers].
    rewrite length_app. cbn [List.length]. f_equal. lia.
  - intros u. now rewrite close_run.
Qed.

End ControllerExtras.

(** ** The folder source, further properties *)

Lemma lower_ascii_idempotent (c : ascii) :
  lower_ascii (lower_ascii c) = lower_ascii c.
Proof. destruct c as [[] [] [] [] [] [] [] []]; reflexivity. Qed.

Lemma toLowerCase_idempotent (s : string) :
  toLowerCase (toLowerCase s) = toLowerCase s.
Proof.
  induction s as [| c s IH]; [reflexivity |].
  cbn. now rewrite lower_ascii_idempotent, IH.
Qed.


Lemma contains_empty (s : string) : contains s "" = true.
Proof. rewrite contains_unfold. now destruct s. Qed.

Lemma append_empty_r (s : string) : (s ++ "")%string = s.
Proof. induction s as [| c s IH]; [reflexivity | cbn; now rewrite IH]. Qed.


Lemma contains_refl (s : string) : contains s s = true.
Proof.
  apply contains_substring. exists ""%string, ""%string.
  cbn. now rewrite append_empty_r.
Qed.

Lemma In_foldersOf (files : list TAbstractFile) (f : TFolder) :
  In f (foldersOf files) <-> In (AFolder f) files.
Proof.
  unfold foldersOf. rewrite in_flat_map. split.
  - intros ([p | g] & Hin & Hg); cbn in Hg; [contradiction |].
    destruct Hg as [-> | []]. exact Hin.
  - intros Hin. exists (AFolder f). split; [exact Hin | now left].
Qed.

Lemma getSuggestions_filter (files : list TAbstractFile) (inputStr : string) :
  FolderSuggest.getSuggestions files inputStr
  = firstn 1000 (List.filter (matchesInput inputStr) (foldersOf files)).
Proof.
  unfold FolderSuggest.getSuggestions. cbv zeta.
  now rewrite fold_left_collect.
Qed.

Lemma filter_is_sublist {A} (p : A -> bool) (l : list A) :
  sublist (List.filter p l) l.
Proof.
  induction l as [| a l IH]; cbn; [constructor |].
  destruct (p a); now constructor.
Qed.

(** X10.  What the folder source can return: at most 1000 folders, each one
    a folder of the vault (never a file) whose path matches the input, and
    in the order in which the vault lists them. *)
Theorem getSuggestions_within_vault (files : list TAbstractFile)
  (inputStr : string) :
  let result := FolderSuggest.getSuggestions files inputStr in
  (List.length result <= 1000)%nat /\
  Forall (fun f => In (AFolder f) files /\ matchesInput inputStr f = true)
         result /\
  sublist result (foldersOf files).
Proof.
  cbv zeta. rewrite getSuggestions_filter. repeat split.
  - apply firstn_le_length.
  - apply Forall_forall. intros f Hf.
    assert (Hin : In f (List.filter (matchesInput inputStr) (foldersOf files))).
    { apply list_elem_of_In.
      eapply elem_of_sublist; [exact Hf | apply sublist_take]. }
    apply filter_In in Hin as [Hin Hm].
    split; [now apply In_foldersOf | exact Hm].
  - etransitivity; [apply sublist_take | apply filter_is_sublist].
Qed.

Lemma filter_all {A} (p : A -> bool) (l : list A) :
  (forall x, p x = true) -> List.filter p l = l.
Proof.
  intros H. induction l as [| a l IH]; [reflexivity |].
  cbn. now rewrite H, IH.
Qed.

(** X11.  Only the lower-cased input matters: two inputs with the same
    lower-casing get the same suggestions from every vault, a folder whose
    path is written in another case matches the same inputs, and the empty
    input lists the folders of the vault up to the cap of 1000. *)
Theorem getSuggestions_ignores_case (files : list TAbstractFile)
  (s1 s2 : string) :
  toLowerCase s1 = toLowerCase s2 ->
  FolderSuggest.getSuggestions files s1 = FolderSuggest.getSuggestions files s2 /\
  (forall p : string,
      matchesInput s1 (mkTFolder (toLowerCase p))
      = matchesInput s2 (mkTFolder p)) /\
  FolderSuggest.getSuggestions files "" = firstn 1000 (foldersOf files).
Proof.
  intros Heq. split; [| split].
  - unfold FolderSuggest.getSuggestions. cbv zeta. now rewrite Heq.
  - intros p. unfold matchesInput. cbn [path].
    now rewrite toLowerCase_idempotent, Heq.
  - rewrite getSuggestions_filter. f_equal. apply filter_all.
    intros f. apply contains_empty.
Qed.

Lemma getSuggestions_ignores_case_witness :
  FolderSuggest.getSuggestions scenarioVault "PRO"
  = FolderSuggest.getSuggestions scenarioVault "pro".
Proof.
  apply (getSuggestions_ignores_case scenarioVault "PRO" "pro").
  reflexivity.
Defined.




Lemma getSuggestions_own_path (files : list TAbstractFile) (file : TFolder) :
  In (AFolder file) files ->
  exists v rest,
    FolderSuggest.getSuggestions files (path file) = v :: rest.
Proof.
  intros Hin. rewrite getSuggestions_filter.
  assert (Hf : In file (List.filter (matchesInput (path file))
                                    (foldersOf files))).
  { apply filter_In. split; [now apply In_foldersOf |].
    unfold matchesInput. apply contains_refl. }
  destruct (List.filter (matchesInput (path file)) (foldersOf files))
    as [| v l]; [contradiction |].
  now exists v, (firstn 999 l).
Qed.

Lemma count_calls_app {T} (p : Call T -> bool) (c1 c2 : list (Call T)) :
  count_calls p (c1 ++ c2) = (count_calls p c1 + count_calls p c2)%nat.
Proof. unfold count_calls. now rewrite List.filter_app, length_app. Qed.

Lemma count_calls_renders {T} (p : Call T -> bool) (vals : list T)
  (els : list ElId) :
  (forall v el, p (OwnerRender v el) = false) ->
  count_calls p (zip_with OwnerRender vals els) = 0%nat.
Proof.
  intros H. unfold count_calls. rewrite filter_none; [reflexivity |].
  intros c Hc.
  apply list_elem_of_In, elem_of_lookup_zip_with in Hc
    as (i & x & el & -> & _ & _).
  apply H.
Qed.

(** X13.  Selecting a folder of the vault opens the panel once more before
    closing it.  The input event that [selectSuggestion] triggers finds the
    folder's own path among the candidates, so [open] pushes the scope and
    the final [close] pops it: one push, one pop, and the host's stack is
    left exactly as it was before the selection, while the panel ends
    detached with nothing rendered. *)
Theorem selectSuggestion_keeps_keymap (files : list TAbstractFile)
  (file : TFolder) (event : DomEvent) (w : World TFolder) :
  In (AFolder file) files ->
  let r := FolderSuggest.selectSuggestion files file event w in
  outcome r = Returned tt /\
  keymap (final r) = keymap w /\
  count_calls is_push (calls r) = 1%nat /\
  count_calls is_pop (calls r) = 1%nat /\
  panel_attached (final r) = false /\
  values (final r) = Some [] /\
  input_value (final r) = path file.
Proof.
  intros Hin. cbv zeta.
  destruct (getSuggestions_own_path files file Hin) as (v & rest & Hg).
  set (w1 := set_input_value (path file) w).
  assert (Hsrc : FolderSuggest.source files (input_value w1) = Some (v :: rest)).
  { unfold FolderSuggest.source. subst w1.
    replace (input_value (set_input_value (path file) w)) with (path file)
      by now destruct w.
    now rewrite Hg. }
  destruct (onInputChanged_open_run FolderSuggest.renderSuggestion
              (FolderSuggest.source files) w1 v rest Hsrc)
    as (Ho & Hf & Hc).
  unfold FolderSuggest.selectSuggestion, bind, emit, modify. cbn.
  fold w1.
  destruct (onInputChanged (FolderSuggest.source files)
              FolderSuggest.renderSuggestion w1) as [o1 u1 c1].
  cbn in Ho, Hf, Hc. subst o1 u1 c1. cbn.
  rewrite !close_run, !open_run, !setSuggestions_run. cbn.
  repeat split; try reflexivity.
  - match goal with
    | |- List.length (List.filter ?p ?l) = _ =>
        change (count_calls p l = 1%nat)
    end.
    rewrite !count_calls_app, count_calls_renders by reflexivity.
    reflexivity.
  - match goal with
    | |- List.length (List.filter ?p ?l) = _ =>
        change (count_calls p l = 1%nat)
    end.
    rewrite !count_calls_app, count_calls_renders by reflexivity.
    reflexivity.
Qed.

Lemma selectSuggestion_keeps_keymap_witness :
  keymap (final (FolderSuggest.selectSuggestion scenarioVault
                   (mkTFolder "Projects/Personal")
                   (KeyboardEvent Enter false) scenarioOpen))
  = keymap scenarioOpen.
Proof.
  apply (selectSuggestion_keeps_keymap scenarioVault
           (mkTFolder "Projects/Personal") (KeyboardEvent Enter false)
           scenarioOpen).
  cbn. tauto.
Defined.

(** ** Invariants along every sequence of events *)

Section ShapeProps.

Context {T : Type}.
Variable truthy : T -> bool.
Variable getSuggestions : string -> option (list T).
Variable renderSuggestion : T -> Element -> Element.
Variable selectSuggestion : T -> DomEvent -> M T unit.

Lemma final_bind {A B} (m : M T A) (f : A -> M T B) (w : World T) :
  final (bind m f w)
  = match outcome (m w) with
    | Returned a => final (f a (final (m w)))
    | Threw _ => final (m w)
    end.
Proof.
  unfold bind. destruct (m w) as [[a | e] w1 c1]; cbn; [| reflexivity].
  now destruct (f a w1).
Qed.

Lemma outcome_bind {A B} (m : M T A) (f : A -> M T B) (w : World T) :
  outcome (bind m f w)
  = match outcome (m w) with
    | Returned a => outcome (f a (final (m w)))
    | Threw e => Threw e
    end.
Proof.
  unfold bind. destruct (m w) as [[a | e] w1 c1]; cbn; [| reflexivity].
  now destruct (f a w1).
Qed.

Lemma setSuggestions_normalized (vals : list T) (w : World T) :
  Normalized (final (setSuggestions renderSuggestion vals w)).
Proof.
  rewrite setSuggestions_run. unfold Normalized. cbn.
  rewrite length_seq. repeat split.
  destruct vals as [| v rest]; cbn [List.length seq].
  - change (Z.of_nat 0) with 0. apply f_equal, wrapAround_zero_size.
  - exists 0. rewrite wrapAround_mod by lia.
    rewrite Z.mod_0_l by lia. split; [reflexivity | lia].
Qed.

Lemma close_shaped (w : World T) :
  Shaped (final (close renderSuggestion w)).
Proof.
  rewrite close_run. split.
  - unfold Normalized. cbn. auto.
  - unfold OpenShape. cbn. discriminate.
Qed.

Lemma onInputChanged_shaped (w : World T) :
  Shaped (final (onInputChanged getSuggestions renderSuggestion w)).
Proof.
  destruct (getSuggestions (input_value w)) as [[| v rest] |] eqn:Hg.
  - rewrite onInputChanged_run, Hg. apply close_shaped.
  - destruct (onInputChanged_open_run renderSuggestion getSuggestions
                w v rest Hg) as (_ & -> & _).
    pose proof (setSuggestions_normalized (v :: rest) w) as Hn.
    rewrite open_run.
    rewrite setSuggestions_run in Hn |- *. cbn in Hn |- *.
    split.
    + exact Hn.
    + intros _. cbn. split; [now exists v, rest |].
      exists (List.length (poppers w)). split; [reflexivity |].
      rewrite lookup_app_r by lia. now rewrite Nat.sub_diag.
  - rewrite onInputChanged_run, Hg. apply close_shaped.
Qed.

Lemma setSelectedItem_unassigned (w : World T) (idx : num) (scroll : bool) :
  suggestions w = None ->
  setSelectedItem idx scroll w
  = mkRun (Threw (TypeError "suggestions is undefined")) w [].
Proof.
  intros Hs. destruct w as [km d pp iv pa po cc vs sg si].
  cbn in Hs. subst sg. reflexivity.
Qed.

Lemma setSelectedItem_shaped (w : World T) (idx : num) (scroll : bool) :
  Shaped w ->
  match suggestions w with
  | Some (_ :: _) => exists z : Z, idx = Int z
  | _ => True
  end ->
  Shaped (final (setSelectedItem idx scroll w)).
Proof.
  intros [Hn Ho] Hidx.
  destruct (suggestions w) as [els |] eqn:Hs.
  2: { now rewrite (setSelectedItem_unassigned w idx scroll Hs). }
  rewrite (setSelectedItem_run w els idx scroll Hs). cbn [final].
  unfold Normalized in Hn. rewrite Hs in Hn.
  destruct (values w) as [vs |] eqn:Hv; [| contradiction].
  destruct Hn as (Hlen & Hc & Hsel).
  destruct w as [km d pp iv pa po cc vals sg si].
  cbn in Hs, Hv, Hc, Hsel, Ho. subst sg vals cc.
  split.
  - unfold Normalized. cbn. repeat split; try assumption.
    destruct els as [| e els'].
    + change (Z.of_nat (List.length [])) with 0.
      now rewrite wrapAround_zero_size.
    + destruct Hidx as [z ->].
      rewrite wrapAround_mod by (cbn [List.length]; lia).
      eexists. split; [reflexivity |].
      apply Z.mod_pos_bound. cbn [List.length]. lia.
  - unfold OpenShape in *. cbn in *. exact Ho.
Qed.

Lemma useSelectedItem_shaped (event : DomEvent) (w : World T) :
  (forall v ev u, Shaped u -> Shaped (final (selectSuggestion v ev u))) ->
  Shaped w ->
  Shaped (final (useSelectedItem truthy selectSuggestion event w)).
Proof.
  intros Hsel Hw.
  destruct (values w) as [vs |] eqn:Hv.
  - rewrite (useSelectedItem_run truthy selectSuggestion event w vs Hv).
    destruct (js_index vs (selectedItem w)) as [x |]; [| exact Hw].
    destruct (truthy x); [| exact Hw].
    cbn [final]. now apply Hsel.
  - destruct w as [km d pp iv pa po cc vals sg si]. cbn in Hv. subst vals.
    exact Hw.
Qed.

Lemma arrow_index_ok (w : World T) (delta : Z) :
  Normalized w ->
  match suggestions w with
  | Some (_ :: _) =>
      exists z : Z, js_add (to_number (selectedItem w)) (Int delta) = Int z
  | _ => True
  end.
Proof.
  unfold Normalized. intros Hn.
  destruct (suggestions w) as [[| e els] |]; try exact I.
  destruct (values w); [| contradiction].
  destruct Hn as (_ & _ & i & -> & _). cbn. eauto.
Qed.

Lemma onArrowDown_final (w : World T) :
  final (onArrowDown (KeyboardEvent ArrowDown false) w)
  = final (setSelectedItem (js_add (to_number (selectedItem w)) (Int 1))
                           true w).
Proof.
  unfold onArrowDown, bind, gets, ret. cbn.
  now destruct (setSelectedItem _ true w) as [[[] | e] w1 c1].
Qed.

Lemma onArrowUp_final (w : World T) :
  final (onArrowUp (KeyboardEvent ArrowUp false) w)
  = final (setSelectedItem (js_add (to_number (selectedItem w)) (Int (-1)))
                           true w).
Proof.
  unfold onArrowUp, bind, gets, ret. cbn.
  replace (js_sub (to_number (selectedItem w)) (Int 1))
    with (js_add (to_number (selectedItem w)) (Int (-1)))
    by (destruct (selectedItem w) as [[| z] |]; reflexivity).
  now destruct (setSelectedItem _ true w) as [[[] | e] w1 c1].
Qed.

Lemma keyHandler_shaped (k : Key) (composing : bool) (w : World T) :
  (forall v ev u, Shaped u -> Shaped (final (selectSuggestion v ev u))) ->
  Shaped w ->
  Shaped (final (keyHandler truthy renderSuggestion selectSuggestion k
                            (KeyboardEvent k composing) w)).
Proof.
  intros Hsel Hw. destruct k; cbn [keyHandler].
  - destruct composing; [exact Hw |].
    rewrite onArrowUp_final. apply setSelectedItem_shaped; [exact Hw |].
    apply arrow_index_ok, Hw.
  - destruct composing; [exact Hw |].
    rewrite onArrowDown_final. apply setSelectedItem_shaped; [exact Hw |].
    apply arrow_index_ok, Hw.
  - destruct composing; [exact Hw |].
    unfold onEnter. cbn [isComposing negb]. rewrite final_bind.
    pose proof (useSelectedItem_shaped (KeyboardEvent Enter false) w Hsel Hw)
      as H.
    now destruct (outcome (useSelectedItem truthy selectSuggestion _ w)).
  - unfold onEscape. rewrite final_bind.
    pose proof (close_shaped w) as H.
    now destruct (outcome (close renderSuggestion w)).
Qed.

Lemma pointer_shaped (w : World T) (el : ElId) :
  (forall v ev u, Shaped u -> Shaped (final (selectSuggestion v ev u))) ->
  Shaped w ->
  Shaped (final (onSuggestionClick truthy selectSuggestion
                                   (MouseEvent el) el w)) /\
  Shaped (final (onSuggestionMouseover (MouseEvent el) el w)).
Proof.
  intros Hsel Hw.
  assert (Hset : forall els,
    suggestions w = Some els ->
    Shaped (final (setSelectedItem (Int (indexOf els el)) false w))).
  { intros els Hs. apply setSelectedItem_shaped; [exact Hw |].
    rewrite Hs. destruct els; eauto. }
  split.
  - unfold onSuggestionClick. rewrite final_bind.
    cbn [emit gets outcome final].
    rewrite final_bind. cbn [emit gets outcome final].
    destruct (suggestions w) as [els |] eqn:Hs; [| exact Hw].
    rewrite final_bind.
    destruct (outcome (setSelectedItem (Int (indexOf els el)) false w));
      [| now apply Hset].
    apply useSelectedItem_shaped; [exact Hsel | now apply Hset].
  - unfold onSuggestionMouseover. rewrite final_bind.
    cbn [emit gets outcome final].
    destruct (suggestions w) as [els |] eqn:Hs; [| exact Hw].
    now apply Hset.
Qed.

Lemma deliverAll_shaped (evs : list UiEvent) (w : World T) :
  (forall v ev u, Shaped u -> Shaped (final (selectSuggestion v ev u))) ->
  Shaped w ->
  Shaped (deliverAll truthy getSuggestions renderSuggestion selectSuggestion
                     evs w).
Proof.
  intros Hsel. revert w.
  induction evs as [| ev evs IH]; intros w Hw; [exact Hw |].
  cbn [deliverAll]. apply IH.
  destruct ev as [s | | | k c | el | el]; cbn [deliver].
  - rewrite final_bind. cbn [modify outcome final].
    apply onInputChanged_shaped.
  - apply onInputChanged_shaped.
  - apply close_shaped.
  - rewrite final_bind. cbn [gets outcome final].
    destruct (head (keymap w)) as [[| n] |]; try exact Hw.
    rewrite final_bind.
    pose proof (keyHandler_shaped k c w Hsel Hw) as H.
    now destruct (outcome (keyHandler _ _ _ k _ w)).
  - rewrite final_bind. cbn [gets outcome final].
    destruct (panel_attached w && existsb (Nat.eqb el) (container_children w));
      [| exact Hw].
    now apply pointer_shaped.
  - rewrite final_bind. cbn [gets outcome final].
    destruct (panel_attached w && existsb (Nat.eqb el) (container_children w));
      [| exact Hw].
    now apply pointer_shaped.
Qed.

(** X14.  The shape of the widget's state is kept by every event.  For
    every owner whose select capability keeps it, each delivered event
    (input, focus, blur, any key, click, hover) leaves the controller's
    fields well-formed: one rendered element per value, the container
    showing exactly those elements, the selected index [NaN] on an empty
    list and inside [[0, len)] otherwise; and an attached panel always has
    at least one value and a live positioning instance.  Hence this holds
    after every sequence of events from a new widget. *)
Theorem deliver_keeps_shape (evs : list UiEvent) (w : World T) :
  (forall v ev u, Shaped u -> Shaped (final (selectSuggestion v ev u))) ->
  Shaped w ->
  Shaped (deliverAll truthy getSuggestions renderSuggestion selectSuggestion
                     evs w).
Proof. exact (deliverAll_shaped evs w). Qed.

Lemma useSelectedItem_returns (event : DomEvent) (w : World T) (vs : list T) :
  (forall v ev u, outcome (selectSuggestion v ev u) = Returned tt) ->
  values w = Some vs ->
  outcome (useSelectedItem truthy selectSuggestion event w) = Returned tt.
Proof.
  intros Hret Hv.
  rewrite (useSelectedItem_run truthy selectSuggestion event w vs Hv).
  destruct (js_index vs (selectedItem w)) as [x |]; [| reflexivity].
  destruct (truthy x); [| reflexivity].
  cbn [outcome]. apply Hret.
Qed.

Lemma attached_facts (w : World T) :
  Shaped w ->
  panel_attached w = true ->
  exists (vs : list T) (els : list ElId) (i : Z),
    values w = Some vs /\
    suggestions w = Some els /\
    0 < Z.of_nat (List.length els) /\
    selectedItem w = Some (Int i).
Proof.
  intros [Hn Ho] Hat.
  destruct (Ho Hat) as ((v & vs & Hv) & _).
  unfold Normalized in Hn. rewrite Hv in Hn.
  destruct (suggestions w) as [els |]; [| contradiction].
  destruct Hn as (Hlen & _ & Hsel).
  destruct els as [| e els]; [discriminate |].
  destruct Hsel as (i & Hi & _).
  exists (v :: vs), (e :: els), i.
  repeat split; try assumption; cbn [List.length]; lia.
Qed.

Lemma deliver_returns_attached (ev : UiEvent) (w : World T) :
  (forall v e u, outcome (selectSuggestion v e u) = Returned tt) ->
  Shaped w ->
  panel_attached w = true ->
  outcome (deliver truthy getSuggestions renderSuggestion selectSuggestion
                   ev w)
  = Returned tt.
Proof.
  intros Hret Hw Hat.
  destruct (attached_facts w Hw Hat) as (vs & els & i & Hv & Hs & Hlen & Hi).
  destruct ev as [s | | | k c | el | el]; cbn [deliver].
  - rewrite outcome_bind. cbn [modify outcome final].
    apply onInputChanged_returns.
  - apply onInputChanged_returns.
  - apply close_returns.
  - rewrite outcome_bind. cbn [gets outcome final].
    destruct (head (keymap w)) as [[| n] |]; try reflexivity.
    rewrite outcome_bind.
    assert (Hk : exists x,
      outcome (keyHandler truthy renderSuggestion selectSuggestion k
                          (KeyboardEvent k c) w) = Returned x).
    { destruct k; cbn [keyHandler].
      - destruct c; [now exists None |].
        exists (Some false).
        now destruct (onArrowUp_step w els i Hs Hlen Hi).
      - destruct c; [now exists None |].
        exists (Some false).
        now destruct (onArrowDown_step w els i Hs Hlen Hi).
      - destruct c; [now exists None |].
        exists (Some false). unfold onEnter. cbn [isComposing negb].
        rewrite outcome_bind.
        now rewrite (useSelectedItem_returns _ w vs Hret Hv).
      - exists None. unfold onEscape. rewrite outcome_bind.
        now rewrite close_returns. }
    destruct Hk as [x ->]. reflexivity.
  - rewrite outcome_bind. cbn [gets outcome final].
    destruct (panel_attached w && existsb (Nat.eqb el) (container_children w));
      [| reflexivity].
    unfold onSuggestionClick. rewrite outcome_bind.
    cbn [emit gets outcome final].
    rewrite outcome_bind. cbn [emit gets outcome final]. rewrite Hs.
    rewrite outcome_bind.
    destruct (setSelectedItem_nonempty w els (indexOf els el) false Hs Hlen)
      as (Ho & _ & _ & Hvals).
    rewrite Ho.
    apply (useSelectedItem_returns _ _ vs Hret). congruence.
  - rewrite outcome_bind. cbn [gets outcome final].
    destruct (panel_attached w && existsb (Nat.eqb el) (container_children w));
      [| reflexivity].
    unfold onSuggestionMouseover. rewrite outcome_bind.
    cbn [emit gets outcome final]. rewrite Hs.
    now destruct (setSelectedItem_nonempty w els (indexOf els el) false
                    Hs Hlen).
Qed.

(** X15.  No handler throws while the panel is attached.  In a well-formed
    state with the panel attached, and with a select capability that does
    not throw, every event (input, focus, blur, any key with or without
    composition, click or hover on any element) is handled without an
    error. *)
Theorem attached_panel_never_throws (ev : UiEvent) (w : World T) :
  (forall v e u, outcome (selectSuggestion v e u) = Returned tt) ->
  Shaped w ->
  panel_attached w = true ->
  outcome (deliver truthy getSuggestions renderSuggestion selectSuggestion
                   ev w)
  = Returned tt.
Proof. exact (deliver_returns_attached ev w). Qed.

End ShapeProps.

Lemma initial_shaped (T : Type) : Shaped (initial T).
Proof.
  split.
  - unfold Normalized. cbn. auto.
  - unfold OpenShape. cbn. discriminate.
Qed.

Lemma folder_select_shaped (files : list TAbstractFile) (v : TFolder)
  (ev : DomEvent) (u : World TFolder) :
  Shaped (final (FolderSuggest.selectSuggestion files v ev u)).
Proof.
  unfold FolderSuggest.selectSuggestion.
  do 3 (rewrite final_bind; cbn [emit modify outcome final]).
  rewrite final_bind.
  destruct (onInputChanged_returns FolderSuggest.renderSuggestion
              (FolderSuggest.source files)
              (set_input_value (path v) u)) as [-> _].
  apply close_shaped.
Qed.

Lemma folder_select_returns (files : list TAbstractFile) (v : TFolder)
  (ev : DomEvent) (u : World TFolder) :
  outcome (FolderSuggest.selectSuggestion files v ev u) = Returned tt.
Proof.
  unfold FolderSuggest.selectSuggestion.
  do 3 (rewrite outcome_bind; cbn [emit modify outcome final]).
  rewrite outcome_bind.
  destruct (onInputChanged_returns FolderSuggest.renderSuggestion
              (FolderSuggest.source files)
              (set_input_value (path v) u)) as [-> _].
  apply close_returns.
Qed.

(** X16.  The folder widget, along every sequence of events from a new
    widget and for every vault: the state reached is well-formed (values and
    rendered elements aligned, selected index [NaN] on an empty list and in
    range otherwise, an attached panel never empty and always positioned),
    and whenever the panel is attached the next event, whatever it is, is
    handled without an error. *)
Theorem folder_widget_reachable (files : list TAbstractFile)
  (evs : list UiEvent) (ev : UiEvent) :
  let w := FolderSuggest.handleAll files evs (initial TFolder) in
  Shaped w /\
  (panel_attached w = true ->
   outcome (FolderSuggest.handle files ev w) = Returned tt).
Proof.
  cbv zeta.
  assert (Hw : Shaped (FolderSuggest.handleAll files evs (initial TFolder))).
  { apply deliverAll_shaped.
    - intros v e u _. apply folder_select_shaped.
    - apply initial_shaped. }
  split; [exact Hw |].
  intros Hat. apply deliver_returns_attached; try assumption.
  intros v e u. apply folder_select_returns.
Qed.

(** ** The organise command *)

Section OrganiseProps.

Variable frontmatterOf : TFile -> option FrontMatter.
Variable getFolderByPath : list VaultCall -> string -> option TFolder.
Variable childrenOf : TFolder -> list VaultChild.


Lemma transferNote_sync (hist : list VaultCall) (folder : TFolder)
  (file : TFile) :
  let st := transferNote frontmatterOf getFolderByPath hist folder file in
  exists c : VaultCall,
    syncCalls st = [c] /\
    match c with Rename f _ => f = file | _ => True end /\
    List.length (match pending st with Some p => [p] | None => [] end)
    = List.length (List.filter is_create [c]).
Proof.
  cbv zeta. unfold transferNote.
  destruct (frontmatterOf file) as [fm |]; [| eexists; cbn; eauto].
  destruct (tags fm) as [| | [| category rest]];
    try (eexists; cbn; now eauto).
  cbv zeta.
  destruct (getFolderByPath hist _) as [d |]; eexists; cbn; eauto.
Qed.

Lemma organise_fold (folder : TFolder) (children : list VaultChild) :
  forall acc : list VaultCall * list Pending,
    let run := fold_left
                 (organiseChild frontmatterOf getFolderByPath folder)
                 children acc in
    exists body : list VaultCall,
      fst run = fst acc ++ body /\
      List.length body = List.length (filesOf children) /\
      List.length (snd run)
      = (List.length (snd acc) + List.length (List.filter is_create body))%nat /\
      Forall (fun c => match c with
                       | Rename f _ => In (ChildFile f) children
                       | _ => True
                       end) body.
Proof.
  induction children as [| child children IH]; intros acc; cbv zeta.
  - exists []. cbn. rewrite app_nil_r. repeat split; auto.
  - cbn [fold_left].
    destruct child as [file | d]; cbn [organiseChild].
    + destruct (transferNote_sync (fst acc) folder file)
        as (c & Hc & Hfile & Hp).
      cbv zeta. rewrite Hc.
      destruct (IH ((fst acc ++ [c])%list,
                    (snd acc ++
                     match pending (transferNote frontmatterOf getFolderByPath
                                      (fst acc) folder file) with
                     | Some p => [p]
                     | None => []
                     end)%list))
        as (body & Hfst & Hlen & Hpend & Hall).
      cbn [fst snd] in Hfst, Hpend.
      exists (c :: body). repeat split.
      * rewrite Hfst. now rewrite <- app_assoc.
      * cbn. now rewrite Hlen.
      * rewrite Hpend, length_app, Hp.
        change (c :: body) with ([c] ++ body).
        rewrite List.filter_app, length_app. lia.
      * constructor.
        -- destruct c; auto. subst. now left.
        -- eapply Forall_impl; [exact Hall |].
           intros [m | p | f dest]; auto. intros H. now right.
    + destruct (IH acc) as (body & Hfst & Hlen & Hpend & Hall).
      exists body. repeat split; try assumption.
      eapply Forall_impl; [exact Hall |].
      intros [m | p | f dest]; auto. intros H. now right.
Qed.

(** X18.  The organise command.  Without the notes folder it shows one
    notice and asks nothing else of the host.  With it, it makes exactly one
    request per note of the folder, in order, skipping the sub-folders;
    every rename it requests is of a note of that folder; one call of
    [transferNote] is left waiting for each folder creation it requested;
    and the notice that the notes are organised is shown last, whatever
    happened to the single notes and before any waiting call goes on. *)
Theorem organiseFiles_shape (settings : PluginSettings) :
  let run := organiseFiles frontmatterOf getFolderByPath childrenOf settings in
  match getFolderByPath [] (notesFolder settings) with
  | None => run = ([ShowNotice "Notes folder not found."], [])
  | Some folder =>
      exists body : list VaultCall,
        fst run = body ++ [ShowNotice "Notes organised!"] /\
        List.length body = List.length (filesOf (childrenOf folder)) /\
        List.length (snd run) = List.length (List.filter is_create body) /\
        Forall (fun c => match c with
                         | Rename f _ => In (ChildFile f) (childrenOf folder)
                         | _ => True
                         end) body
  end.
Proof.
  cbv zeta. unfold organiseFiles.
  destruct (getFolderByPath [] (notesFolder settings)) as [folder |];
    [| reflexivity].
  destruct (organise_fold folder (childrenOf folder) ([], []))
    as (body & Hfst & Hlen & Hpend & Hall).
  cbn [fst snd app List.length Nat.add] in Hfst, Hpend.
  exists body. cbn [fst snd]. rewrite Hfst. auto.
Qed.

End OrganiseProps.

(** ** The further properties at concrete inputs *)

Lemma scenarioOpen_marked : MarkedAt scenarioOpen [0%nat; 1%nat] 0%nat.
Proof.
  repeat split; try reflexivity.
  - constructor; [| constructor; [| constructor]].
    + intros H. apply list_elem_of_In in H. cbn in H.
      destruct H as [H | []]. discriminate.
    + intros H. apply list_elem_of_In in H. destruct H.
  - intros e He.
    replace (List.length (dom scenarioOpen)) with 2%nat by reflexivity.
    cbn in He. destruct He as [<- | [<- | []]]; lia.
Defined.

Lemma setSelectedItem_keeps_mark_witness :
  exists el' : ElId,
    [0%nat; 1%nat] !! Z.to_nat (5 mod 2) = Some el' /\
    outcome (setSelectedItem (Int 5) true scenarioOpen) = Returned tt /\
    MarkedAt (final (setSelectedItem (Int 5) true scenarioOpen))
             [0%nat; 1%nat] el'.
Proof.
  apply (setSelectedItem_keeps_mark scenarioOpen [0%nat; 1%nat] 0%nat 5 true).
  exact scenarioOpen_marked.
Defined.

Lemma arrows_are_inverse_witness :
  selectedItem
    (final (onArrowUp (KeyboardEvent ArrowUp false)
              (final (onArrowDown (KeyboardEvent ArrowDown false)
                        scenarioOpen))))
  = Some (Int 0).
Proof.
  assert (Hs : suggestions scenarioOpen = Some [0%nat; 1%nat])
    by reflexivity.
  assert (Hi : selectedItem scenarioOpen = Some (Int 0)) by reflexivity.
  assert (Hr : 0 <= 0 < Z.of_nat (List.length [0%nat; 1%nat]))
    by (cbn; lia).
  exact (proj1 (proj2 (proj2
           (arrows_are_inverse scenarioOpen [0%nat; 1%nat] 0 Hs Hi Hr)))).
Defined.

Lemma mouseover_selects_hovered_witness :
  selectedItem (final (onSuggestionMouseover (MouseEvent 1%nat) 1%nat scenarioOpen))
  = Some (Int 1).
Proof.
  apply (mouseover_selects_hovered scenarioOpen [0%nat; 1%nat] 1%nat 1%nat
           (MouseEvent 1%nat)).
  - reflexivity.
  - exact (proj1 (proj2 (proj2 scenarioOpen_marked))).
  - reflexivity.
Defined.

Lemma click_selects_and_uses_witness :
  let event := MouseEvent 1%nat in
  let w1 := final (setSelectedItem (Int 1) false scenarioOpen) in
  final (onSuggestionClick FolderSuggest.truthy
           (FolderSuggest.selectSuggestion scenarioVault) event 1%nat
           scenarioOpen)
  = final (FolderSuggest.selectSuggestion scenarioVault
             (mkTFolder "Projects/Personal") event w1).
Proof.
  cbv zeta.
  apply (click_selects_and_uses FolderSuggest.truthy
           (FolderSuggest.selectSuggestion scenarioVault) scenarioOpen
           [0%nat; 1%nat]
           [mkTFolder "Projects/Work"; mkTFolder "Projects/Personal"]
           1%nat 1%nat (mkTFolder "Projects/Personal")).
  - reflexivity.
  - reflexivity.
  - exact (proj1 (proj2 (proj2 scenarioOpen_marked))).
  - reflexivity.
  - reflexivity.
  - reflexivity.
Defined.

Lemma deliver_keeps_shape_witness :
  Shaped (FolderSuggest.handleAll scenarioVault
            [UserInput "pro"; UserKey ArrowDown false; UserKey Enter false;
             UserKey ArrowDown false]
            (initial TFolder)).
Proof.
  apply (deliver_keeps_shape FolderSuggest.truthy
           (FolderSuggest.source scenarioVault) FolderSuggest.renderSuggestion
           (FolderSuggest.selectSuggestion scenarioVault)).
  - intros v ev u _. apply folder_select_shaped.
  - apply initial_shaped.
Defined.

Lemma scenarioOpen_shaped : Shaped scenarioOpen.
Proof.
  split.
  - vm_compute. split; [reflexivity |]. split; [reflexivity |].
    exists 0. split; [reflexivity |]. split; [discriminate | reflexivity].
  - intros _. split.
    + now exists (mkTFolder "Projects/Work"), [mkTFolder "Projects/Personal"].
    + now exists 0%nat.
Defined.

Lemma attached_panel_never_throws_witness :
  outcome (FolderSuggest.handle scenarioVault (UserKey ArrowUp false)
                                scenarioOpen)
  = Returned tt.
Proof.
  apply (attached_panel_never_throws FolderSuggest.truthy
           (FolderSuggest.source scenarioVault) FolderSuggest.renderSuggestion
           (FolderSuggest.selectSuggestion scenarioVault)).
  - intros v e u. apply folder_select_returns.
  - exact scenarioOpen_shaped.
  - reflexivity.
Defined.

Lemma folder_widget_reachable_witness :
  outcome (FolderSuggest.handle scenarioVault (UserKey Enter false)
             (FolderSuggest.handleAll scenarioVault [UserInput "pro"]
                                      (initial TFolder)))
  = Returned tt.
Proof.
  apply (folder_widget_reachable scenarioVault [UserInput "pro"]
           (UserKey Enter false)).
  reflexivity.
Defined.
